(** * Mafia simulator: moderator, engine set-up, phase barrier, doctor agent.

    A shallow embedding of the C++ sources of the simulator
    ([core/moderator.cpp], [core/game_engine.cpp], [core/game_engine_coro.cpp],
    [coro/scheduler.hpp], [roles/doctor.cpp], [app/main.cpp]) together with the
    properties the specification states about them.

    Conventions.
    - [PlayerId] is [std::size_t] used as a vector index; it is modelled by
      [nat].  The statistics counters and tallies are C++ [int]s that only
      ever count submissions; they are modelled by [nat] as well.
    - A slot of the player vector is a [smart::shared_like<IPlayer>], which
      may be null: the vector is a [list (option IPlayer)].
    - Console logging through [util::Logger] changes no state and is left
      out, except where a property speaks about it (the doctor agent).
    - The text of a round-log line is represented by a constructor of
      [JournalLine] carrying the ids the line is formatted from. *)

From stdpp Require Import prelude pretty.
From Stdlib Require String.

Set Default Proof Using "Type".
Local Open Scope nat_scope.

(* ===================================================================== *)
(** * Data model ([core/types.hpp], [roles/i_player.hpp])                  *)
(* ===================================================================== *)

Definition PlayerId := nat.

Module Team.
Inductive t := Town | Mafia | Maniac.
#[global] Instance eq_dec : EqDecision t.
Proof. solve_decision. Defined.
End Team.

Module Role.
Inductive t :=
| Citizen | Mafia | Detective | Doctor | Maniac
| Executioner | Journalist | Eavesdropper.
#[global] Instance eq_dec : EqDecision t.
Proof. solve_decision. Defined.
End Role.

Module Winner.
Inductive t := NoWinner | Town | Mafia | Maniac.
#[global] Instance eq_dec : EqDecision t.
Proof. solve_decision. Defined.
End Winner.

(** The dynamic type of a player object.  Every AI role is its own class
    deriving from [BasePlayer]; the interactive player is the class
    [roles::Human], whatever role it was dealt. *)
Inductive PlayerClass := AiClass | HumanClass.

#[global] Instance PlayerClass_eq_dec : EqDecision PlayerClass.
Proof. solve_decision. Defined.

(** [BasePlayer]: the id is the position in the vector. *)
Record IPlayer := mkPlayer {
  p_name  : String.string;
  p_role  : Role.t;
  p_team  : Team.t;
  p_alive : bool;
  p_class : PlayerClass
}.

(** [BasePlayer::kill]. *)
Definition kill (p : IPlayer) : IPlayer :=
  mkPlayer (p_name p) (p_role p) (p_team p) false (p_class p).

(** [team_of] of the two engines. *)
Definition team_of (r : Role.t) : Team.t :=
  match r with
  | Role.Mafia => Team.Mafia
  | Role.Maniac => Team.Maniac
  | _ => Team.Town
  end.

Inductive TiePolicy := TieNone | TieRandom.

(* ===================================================================== *)
(** * Random numbers ([core/rng.hpp])                                      *)
(* ===================================================================== *)

(** The Mersenne twister is replaced by an arbitrary stream of raw draws;
    [uniform_int] reduces a draw into the closed range it was asked for,
    which is all the callers rely on. *)
Record Rng := mkRng { draws : nat → nat; pos : nat }.

Definition uniform_int (lo hi : nat) (r : Rng) : nat * Rng :=
  let (lo, hi) := if decide (hi < lo) then (hi, lo) else (lo, hi) in
  (lo + draws r (pos r) `mod` (hi - lo + 1), mkRng (draws r) (S (pos r))).

(** [Rng::choose]: an iterator into the range, [last] (here [None]) on an
    empty range, in which case nothing is drawn. *)
Definition choose {A} (l : list A) (r : Rng) : option A * Rng :=
  match l with
  | [] => (None, r)
  | _ => let (idx, r') := uniform_int 0 (length l - 1) r in (l !! idx, r')
  end.

(* ===================================================================== *)
(** * Round journal                                                        *)
(* ===================================================================== *)

Inductive KillSource := ByMafia | ByDetective | ByManiac.

Inductive EavesItem := SawMafia (k : nat) | SawDetShot | SawDocHeal | SawManiac.

Inductive JournalLine :=
| JHeader (round : nat) (alive_ids : list PlayerId) (* "=== ROUND r (Day) ===" + roster *)
| JDayVote (voter target : PlayerId)         (* "DAY: vote #v -> #t" *)
| JDayNoLynch                                (* "DAY: no lynch" *)
| JDayTieNoLynch                             (* "DAY: tie -> no lynch" *)
| JDayExecutionerLynch (victim : PlayerId)   (* "DAY: executioner-lynch #v (role)" *)
| JDayTieRandom                              (* "DAY: tie -> victim chosen randomly" *)
| JDayLynch (victim : PlayerId)              (* "DAY: lynch victim #v (role)" *)
| JExecAbstains (ex : PlayerId)              (* "DAY: executioner abstains (#e)" *)
| JExecInvalid (ex : PlayerId)               (* "DAY: executioner invalid choice by #e" *)
| JExecChooses (victim : PlayerId)           (* "DAY: executioner chooses #v" *)
| JMafiaVote (mafia target : PlayerId)       (* "NIGHT: mafia-vote #m -> #t" *)
| JMafiaTally (tally : list (PlayerId * nat))(* "NIGHT: mafia-tally #t(k) ..." or " none" *)
| JDetectiveShot (target : PlayerId)         (* "NIGHT: detective-shot -> #t" *)
| JDoctorHeal (target : PlayerId)            (* "NIGHT: doctor-heal #t" *)
| JManiacTarget (target : PlayerId)          (* "NIGHT: maniac-target -> #t" *)
| JJournalistCompare (j a b : PlayerId)      (* "NIGHT: journalist-compare by #j -> #a vs #b" *)
| JEavesdropperTarget (e target : PlayerId)  (* "NIGHT: eavesdropper-target by #e -> #t" *)
| JMarkedBy (src : KillSource) (t : PlayerId)(* "NIGHT: marked-by-<src> #t" *)
| JHealCancels (h : PlayerId)                (* "NIGHT: heal-cancels #h" *)
| JJournalistResult (j a b : PlayerId) (same : bool) (* "... : SAME|DIFFERENT" *)
| JEavesdropperResult (target e : PlayerId) (seen : list EavesItem)
| JDeath (victim : PlayerId).                (* "NIGHT: death #v (role)" *)

(** What [round_write_file_] puts on disk: [round_<R>.txt] with the buffered
    lines and the closing line "(night completed)" or "(no night)". *)
Record RoundFile := mkRoundFile {
  rf_round : nat;
  rf_lines : list JournalLine;
  rf_night_completed : bool
}.

(** A call of [round_write_file_] that gets as far as opening the file. *)
Inductive FileEvent :=
| OpenFailed (round : nat)
| Written (f : RoundFile).

(* ===================================================================== *)
(** * Moderator ([core/moderator.hpp], [core/moderator.cpp])               *)
(* ===================================================================== *)

Record JournalistQuery := mkQuery { q_jid : PlayerId; q_a : PlayerId; q_b : PlayerId }.

Record Moderator := mkModerator {
  players : list (option IPlayer);
  tie_policy : TiePolicy;
  rng_ : Rng;
  day_votes_ : list (option PlayerId);
  mafia_vote_counts_ : list nat;
  detective_shot_ : option PlayerId;
  doctor_heal_ : option PlayerId;
  maniac_target_ : option PlayerId;
  journalist_queries_ : list JournalistQuery;
  eavesdrop_requests_ : list (PlayerId * PlayerId);
  stats_votes_given_day_ : list nat;
  stats_votes_received_day_ : list nat;
  stats_mafia_votes_ : list nat;
  stats_detective_shots_ : list nat;
  stats_doctor_heals_ : list nat;
  stats_maniac_targets_ : list nat;
  stats_died_round_ : list nat;
  day_voted_flag_ : list bool;
  round_index_ : nat;
  round_written_ : bool;
  round_log_ : list JournalLine
}.

Definition with_players (v : list (option IPlayer)) (m : Moderator) : Moderator :=
  mkModerator
    v (tie_policy m) (rng_ m) (day_votes_ m)
    (mafia_vote_counts_ m) (detective_shot_ m) (doctor_heal_ m) (maniac_target_ m)
    (journalist_queries_ m) (eavesdrop_requests_ m) (stats_votes_given_day_ m) (stats_votes_received_day_ m)
    (stats_mafia_votes_ m) (stats_detective_shots_ m) (stats_doctor_heals_ m) (stats_maniac_targets_ m)
    (stats_died_round_ m) (day_voted_flag_ m) (round_index_ m) (round_written_ m)
    (round_log_ m).

Definition with_rng (v : Rng) (m : Moderator) : Moderator :=
  mkModerator
    (players m) (tie_policy m) v (day_votes_ m)
    (mafia_vote_counts_ m) (detective_shot_ m) (doctor_heal_ m) (maniac_target_ m)
    (journalist_queries_ m) (eavesdrop_requests_ m) (stats_votes_given_day_ m) (stats_votes_received_day_ m)
    (stats_mafia_votes_ m) (stats_detective_shots_ m) (stats_doctor_heals_ m) (stats_maniac_targets_ m)
    (stats_died_round_ m) (day_voted_flag_ m) (round_index_ m) (round_written_ m)
    (round_log_ m).

Definition with_day_votes (v : list (option PlayerId)) (m : Moderator) : Moderator :=
  mkModerator
    (players m) (tie_policy m) (rng_ m) v
    (mafia_vote_counts_ m) (detective_shot_ m) (doctor_heal_ m) (maniac_target_ m)
    (journalist_queries_ m) (eavesdrop_requests_ m) (stats_votes_given_day_ m) (stats_votes_received_day_ m)
    (stats_mafia_votes_ m) (stats_detective_shots_ m) (stats_doctor_heals_ m) (stats_maniac_targets_ m)
    (stats_died_round_ m) (day_voted_flag_ m) (round_index_ m) (round_written_ m)
    (round_log_ m).

Definition with_mafia_vote_counts (v : list nat) (m : Moderator) : Moderator :=
  mkModerator
    (players m) (tie_policy m) (rng_ m) (day_votes_ m)
    v (detective_shot_ m) (doctor_heal_ m) (maniac_target_ m)
    (journalist_queries_ m) (eavesdrop_requests_ m) (stats_votes_given_day_ m) (stats_votes_received_day_ m)
    (stats_mafia_votes_ m) (stats_detective_shots_ m) (stats_doctor_heals_ m) (stats_maniac_targets_ m)
    (stats_died_round_ m) (day_voted_flag_ m) (round_index_ m) (round_written_ m)
    (round_log_ m).

Definition with_detective_shot (v : option PlayerId) (m : Moderator) : Moderator :=
  mkModerator
    (players m) (tie_policy m) (rng_ m) (day_votes_ m)
    (mafia_vote_counts_ m) v (doctor_heal_ m) (maniac_target_ m)
    (journalist_queries_ m) (eavesdrop_requests_ m) (stats_votes_given_day_ m) (stats_votes_received_day_ m)
    (stats_mafia_votes_ m) (stats_detective_shots_ m) (stats_doctor_heals_ m) (stats_maniac_targets_ m)
    (stats_died_round_ m) (day_voted_flag_ m) (round_index_ m) (round_written_ m)
    (round_log_ m).

Definition with_doctor_heal (v : option PlayerId) (m : Moderator) : Moderator :=
  mkModerator
    (players m) (tie_policy m) (rng_ m) (day_votes_ m)
    (mafia_vote_counts_ m) (detective_shot_ m) v (maniac_target_ m)
    (journalist_queries_ m) (eavesdrop_requests_ m) (stats_votes_given_day_ m) (stats_votes_received_day_ m)
    (stats_mafia_votes_ m) (stats_detective_shots_ m) (stats_doctor_heals_ m) (stats_maniac_targets_ m)
    (stats_died_round_ m) (day_voted_flag_ m) (round_index_ m) (round_written_ m)
    (round_log_ m).

Definition with_maniac_target (v : option PlayerId) (m : Moderator) : Moderator :=
  mkModerator
    (players m) (tie_policy m) (rng_ m) (day_votes_ m)
    (mafia_vote_counts_ m) (detective_shot_ m) (doctor_heal_ m) v
    (journalist_queries_ m) (eavesdrop_requests_ m) (stats_votes_given_day_ m) (stats_votes_received_day_ m)
    (stats_mafia_votes_ m) (stats_detective_shots_ m) (stats_doctor_heals_ m) (stats_maniac_targets_ m)
    (stats_died_round_ m) (day_voted_flag_ m) (round_index_ m) (round_written_ m)
    (round_log_ m).

Definition with_journalist_queries (v : list JournalistQuery) (m : Moderator) : Moderator :=
  mkModerator
    (players m) (tie_policy m) (rng_ m) (day_votes_ m)
    (mafia_vote_counts_ m) (detective_shot_ m) (doctor_heal_ m) (maniac_target_ m)
    v (eavesdrop_requests_ m) (stats_votes_given_day_ m) (stats_votes_received_day_ m)
    (stats_mafia_votes_ m) (stats_detective_shots_ m) (stats_doctor_heals_ m) (stats_maniac_targets_ m)
    (stats_died_round_ m) (day_voted_flag_ m) (round_index_ m) (round_written_ m)
    (round_log_ m).

Definition with_eavesdrop_requests (v : list (PlayerId * PlayerId)) (m : Moderator) : Moderator :=
  mkModerator
    (players m) (tie_policy m) (rng_ m) (day_votes_ m)
    (mafia_vote_counts_ m) (detective_shot_ m) (doctor_heal_ m) (maniac_target_ m)
    (journalist_queries_ m) v (stats_votes_given_day_ m) (stats_votes_received_day_ m)
    (stats_mafia_votes_ m) (stats_detective_shots_ m) (stats_doctor_heals_ m) (stats_maniac_targets_ m)
    (stats_died_round_ m) (day_voted_flag_ m) (round_index_ m) (round_written_ m)
    (round_log_ m).

Definition with_stats_votes_given_day (v : list nat) (m : Moderator) : Moderator :=
  mkModerator
    (players m) (tie_policy m) (rng_ m) (day_votes_ m)
    (mafia_vote_counts_ m) (detective_shot_ m) (doctor_heal_ m) (maniac_target_ m)
    (journalist_queries_ m) (eavesdrop_requests_ m) v (stats_votes_received_day_ m)
    (stats_mafia_votes_ m) (stats_detective_shots_ m) (stats_doctor_heals_ m) (stats_maniac_targets_ m)
    (stats_died_round_ m) (day_voted_flag_ m) (round_index_ m) (round_written_ m)
    (round_log_ m).

Definition with_stats_votes_received_day (v : list nat) (m : Moderator) : Moderator :=
  mkModerator
    (players m) (tie_policy m) (rng_ m) (day_votes_ m)
    (mafia_vote_counts_ m) (detective_shot_ m) (doctor_heal_ m) (maniac_target_ m)
    (journalist_queries_ m) (eavesdrop_requests_ m) (stats_votes_given_day_ m) v
    (stats_mafia_votes_ m) (stats_detective_shots_ m) (stats_doctor_heals_ m) (stats_maniac_targets_ m)
    (stats_died_round_ m) (day_voted_flag_ m) (round_index_ m) (round_written_ m)
    (round_log_ m).

Definition with_stats_mafia_votes (v : list nat) (m : Moderator) : Moderator :=
  mkModerator
    (players m) (tie_policy m) (rng_ m) (day_votes_ m)
    (mafia_vote_counts_ m) (detective_shot_ m) (doctor_heal_ m) (maniac_target_ m)
    (journalist_queries_ m) (eavesdrop_requests_ m) (stats_votes_given_day_ m) (stats_votes_received_day_ m)
    v (stats_detective_shots_ m) (stats_doctor_heals_ m) (stats_maniac_targets_ m)
    (stats_died_round_ m) (day_voted_flag_ m) (round_index_ m) (round_written_ m)
    (round_log_ m).

Definition with_stats_detective_shots (v : list nat) (m : Moderator) : Moderator :=
  mkModerator
    (players m) (tie_policy m) (rng_ m) (day_votes_ m)
    (mafia_vote_counts_ m) (detective_shot_ m) (doctor_heal_ m) (maniac_target_ m)
    (journalist_queries_ m) (eavesdrop_requests_ m) (stats_votes_given_day_ m) (stats_votes_received_day_ m)
    (stats_mafia_votes_ m) v (stats_doctor_heals_ m) (stats_maniac_targets_ m)
    (stats_died_round_ m) (day_voted_flag_ m) (round_index_ m) (round_written_ m)
    (round_log_ m).

Definition with_stats_doctor_heals (v : list nat) (m : Moderator) : Moderator :=
  mkModerator
    (players m) (tie_policy m) (rng_ m) (day_votes_ m)
    (mafia_vote_counts_ m) (detective_shot_ m) (doctor_heal_ m) (maniac_target_ m)
    (journalist_queries_ m) (eavesdrop_requests_ m) (stats_votes_given_day_ m) (stats_votes_received_day_ m)
    (stats_mafia_votes_ m) (stats_detective_shots_ m) v (stats_maniac_targets_ m)
    (stats_died_round_ m) (day_voted_flag_ m) (round_index_ m) (round_written_ m)
    (round_log_ m).

Definition with_stats_maniac_targets (v : list nat) (m : Moderator) : Moderator :=
  mkModerator
    (players m) (tie_policy m) (rng_ m) (day_votes_ m)
    (mafia_vote_counts_ m) (detective_shot_ m) (doctor_heal_ m) (maniac_target_ m)
    (journalist_queries_ m) (eavesdrop_requests_ m) (stats_votes_given_day_ m) (stats_votes_received_day_ m)
    (stats_mafia_votes_ m) (stats_detective_shots_ m) (stats_doctor_heals_ m) v
    (stats_died_round_ m) (day_voted_flag_ m) (round_index_ m) (round_written_ m)
    (round_log_ m).

Definition with_stats_died_round (v : list nat) (m : Moderator) : Moderator :=
  mkModerator
    (players m) (tie_policy m) (rng_ m) (day_votes_ m)
    (mafia_vote_counts_ m) (detective_shot_ m) (doctor_heal_ m) (maniac_target_ m)
    (journalist_queries_ m) (eavesdrop_requests_ m) (stats_votes_given_day_ m) (stats_votes_received_day_ m)
    (stats_mafia_votes_ m) (stats_detective_shots_ m) (stats_doctor_heals_ m) (stats_maniac_targets_ m)
    v (day_voted_flag_ m) (round_index_ m) (round_written_ m)
    (round_log_ m).

Definition with_day_voted_flag (v : list bool) (m : Moderator) : Moderator :=
  mkModerator
    (players m) (tie_policy m) (rng_ m) (day_votes_ m)
    (mafia_vote_counts_ m) (detective_shot_ m) (doctor_heal_ m) (maniac_target_ m)
    (journalist_queries_ m) (eavesdrop_requests_ m) (stats_votes_given_day_ m) (stats_votes_received_day_ m)
    (stats_mafia_votes_ m) (stats_detective_shots_ m) (stats_doctor_heals_ m) (stats_maniac_targets_ m)
    (stats_died_round_ m) v (round_index_ m) (round_written_ m)
    (round_log_ m).

Definition with_round_index (v : nat) (m : Moderator) : Moderator :=
  mkModerator
    (players m) (tie_policy m) (rng_ m) (day_votes_ m)
    (mafia_vote_counts_ m) (detective_shot_ m) (doctor_heal_ m) (maniac_target_ m)
    (journalist_queries_ m) (eavesdrop_requests_ m) (stats_votes_given_day_ m) (stats_votes_received_day_ m)
    (stats_mafia_votes_ m) (stats_detective_shots_ m) (stats_doctor_heals_ m) (stats_maniac_targets_ m)
    (stats_died_round_ m) (day_voted_flag_ m) v (round_written_ m)
    (round_log_ m).

Definition with_round_written (v : bool) (m : Moderator) : Moderator :=
  mkModerator
    (players m) (tie_policy m) (rng_ m) (day_votes_ m)
    (mafia_vote_counts_ m) (detective_shot_ m) (doctor_heal_ m) (maniac_target_ m)
    (journalist_queries_ m) (eavesdrop_requests_ m) (stats_votes_given_day_ m) (stats_votes_received_day_ m)
    (stats_mafia_votes_ m) (stats_detective_shots_ m) (stats_doctor_heals_ m) (stats_maniac_targets_ m)
    (stats_died_round_ m) (day_voted_flag_ m) (round_index_ m) v
    (round_log_ m).

Definition with_round_log (v : list JournalLine) (m : Moderator) : Moderator :=
  mkModerator
    (players m) (tie_policy m) (rng_ m) (day_votes_ m)
    (mafia_vote_counts_ m) (detective_shot_ m) (doctor_heal_ m) (maniac_target_ m)
    (journalist_queries_ m) (eavesdrop_requests_ m) (stats_votes_given_day_ m) (stats_votes_received_day_ m)
    (stats_mafia_votes_ m) (stats_detective_shots_ m) (stats_doctor_heals_ m) (stats_maniac_targets_ m)
    (stats_died_round_ m) (day_voted_flag_ m) (round_index_ m) (round_written_ m)
    v.


(** ** Reading the player vector *)

(** [ps[i]] as a non-null pointer; [None] when [i] is out of range or the
    slot is null. *)
Definition get (ps : list (option IPlayer)) (i : PlayerId) : option IPlayer :=
  match ps !! i with Some (Some p) => Some p | _ => None end.

(** [ps[i]] is non-null. *)
Definition present (ps : list (option IPlayer)) (i : PlayerId) : bool :=
  match get ps i with Some _ => true | None => false end.

(** [ps[i]->is_alive()]. *)
Definition slot_alive (ps : list (option IPlayer)) (i : PlayerId) : bool :=
  match get ps i with Some p => p_alive p | None => false end.

(** [ps[i]->team() == t]. *)
Definition slot_team_is (ps : list (option IPlayer)) (i : PlayerId) (t : Team.t) : bool :=
  match get ps i with Some p => bool_decide (p_team p = t) | None => false end.

(** ** Vector helpers *)

(** [v.resize(n, d)]. *)
Definition resize {A} (n : nat) (d : A) (l : list A) : list A :=
  take n l ++ replicate (n - length l) d.

(** [++v[i]]. *)
Definition incr (i : nat) (l : list nat) : list nat := alter S i l.

(** [v[i]] of a [vector<int>] read inside its bounds. *)
Definition at0 (l : list nat) (i : nat) : nat := default 0 (l !! i).

(** [if (v.size() < n) v.resize(n, 0)]. *)
Definition grow (n : nat) (l : list nat) : list nat :=
  if length l <? n then resize n 0 l else l.

(** ** Private queries *)

Definition is_alive (m : Moderator) (id : PlayerId) : bool :=
  (id <? length (players m)) && present (players m) id && slot_alive (players m) id.

Definition is_mafia (m : Moderator) (id : PlayerId) : bool :=
  (id <? length (players m)) && present (players m) id && slot_alive (players m) id
  && slot_team_is (players m) id Team.Mafia.

Definition is_maniac (m : Moderator) (id : PlayerId) : bool :=
  (id <? length (players m)) && present (players m) id && slot_alive (players m) id
  && slot_team_is (players m) id Team.Maniac.

Definition is_town (m : Moderator) (id : PlayerId) : bool :=
  (id <? length (players m)) && present (players m) id && slot_alive (players m) id
  && slot_team_is (players m) id Team.Town.

(** The body of the counting loops: [p && p->is_alive() && p->team() == t]. *)
Definition counts_for (t : Team.t) (slot : option IPlayer) : bool :=
  match slot with
  | Some p => p_alive p && bool_decide (p_team p = t)
  | None => false
  end.

Fixpoint count_loop (t : Team.t) (ps : list (option IPlayer)) (c : nat) : nat :=
  match ps with
  | [] => c
  | slot :: rest => count_loop t rest (if counts_for t slot then S c else c)
  end.

Definition alive_mafia_count_ (m : Moderator) : nat := count_loop Team.Mafia (players m) 0.
Definition alive_town_count_ (m : Moderator) : nat := count_loop Team.Town (players m) 0.
Definition alive_maniac_count_ (m : Moderator) : nat := count_loop Team.Maniac (players m) 0.

(** ** Round journal *)

Definition alive_ids (ps : list (option IPlayer)) : list PlayerId :=
  filter (λ i, slot_alive ps i = true) (seq 0 (length ps)).

Definition round_begin_day_ (m : Moderator) : Moderator :=
  let m := with_round_index (S (round_index_ m)) m in
  let m := with_round_written false m in
  let m := with_round_log [] m in
  with_round_log (round_log_ m ++ [JHeader (round_index_ m) (alive_ids (players m))]) m.

Definition round_append_ (line : JournalLine) (m : Moderator) : Moderator :=
  with_round_log (round_log_ m ++ [line]) m.

(** [round_write_file_]; [open_ok] tells whether the [ofstream] opened. *)
Definition round_write_file_ (night_completed open_ok : bool) (m : Moderator)
  : Moderator * list FileEvent :=
  if round_written_ m then (m, []) else
  if negb open_ok then (with_round_written true m, [OpenFailed (round_index_ m)]) else
  (with_round_written true m,
   [Written (mkRoundFile (round_index_ m) (round_log_ m) night_completed)]).

Definition finalize_round_file_if_pending (open_ok : bool) (m : Moderator)
  : Moderator * list FileEvent :=
  if (0 <? round_index_ m) && negb (round_written_ m)
  then round_write_file_ false open_ok m
  else (m, []).

(** ** Day *)

Definition clear_day_votes (m : Moderator) : Moderator :=
  let n := length (players m) in
  let m := with_day_votes (replicate n None) m in
  let m := with_day_voted_flag (replicate n false) m in
  let m := with_stats_votes_given_day (grow n (stats_votes_given_day_ m)) m in
  let m := with_stats_votes_received_day (grow n (stats_votes_received_day_ m)) m in
  let m := with_stats_mafia_votes (grow n (stats_mafia_votes_ m)) m in
  let m := with_stats_detective_shots (grow n (stats_detective_shots_ m)) m in
  let m := with_stats_doctor_heals (grow n (stats_doctor_heals_ m)) m in
  let m := with_stats_maniac_targets (grow n (stats_maniac_targets_ m)) m in
  let m := with_stats_died_round (grow n (stats_died_round_ m)) m in
  let m := if negb (length (mafia_vote_counts_ m) =? n)
           then with_mafia_vote_counts (replicate n 0) m else m in
  round_begin_day_ m.

Definition submit_day_vote (voter target : PlayerId) (m : Moderator) : Moderator :=
  let ps := players m in
  let n := length ps in
  if (n <=? voter) || (n <=? target) then m else
  if negb (present ps voter) || negb (present ps target) then m else
  if negb (slot_alive ps voter) || negb (slot_alive ps target) then m else
  let m := if negb (length (day_votes_ m) =? n)
           then with_day_votes (resize n None (day_votes_ m)) m else m in
  let m :=
    if (voter <? length (day_voted_flag_ m))
       && negb (default false (day_voted_flag_ m !! voter))
    then
      let m := with_day_voted_flag (<[voter := true]> (day_voted_flag_ m)) m in
      if voter <? length (stats_votes_given_day_ m)
      then with_stats_votes_given_day (incr voter (stats_votes_given_day_ m)) m
      else m
    else m in
  let m := with_day_votes (<[voter := Some target]> (day_votes_ m)) m in
  round_append_ (JDayVote voter target) m.

(** ** Common operations *)

Definition kill_player (id : PlayerId) (m : Moderator) : Moderator :=
  let ps := players m in
  if length ps <=? id then m else
  match get ps id with
  | None => m
  | Some p =>
      if negb (p_alive p) then m
      else with_players (<[id := Some (kill p)]> ps) m
  end.

(** [if (v < stats_died_round_.size() && stats_died_round_[v] == 0)
       stats_died_round_[v] = round_index_;] *)
Definition record_death_round (victim : PlayerId) (m : Moderator) : Moderator :=
  if (victim <? length (stats_died_round_ m)) && (at0 (stats_died_round_ m) victim =? 0)
  then with_stats_died_round (<[victim := round_index_ m]> (stats_died_round_ m)) m
  else m.

Definition evaluate_winner (m : Moderator) : Winner.t :=
  let maf := alive_mafia_count_ m in
  let man := alive_maniac_count_ m in
  let town := alive_town_count_ m in
  if (maf =? 0) && (man =? 0) then Winner.Town else
  if (man =? 1) && (town =? 1) && (maf =? 0) then Winner.Maniac else
  if (0 <? maf) && (town + man <=? maf) then Winner.Mafia else
  Winner.NoWinner.

(** ** Night: intent submission *)

Definition mafia_vote_target (mafia_id target : PlayerId) (m : Moderator) : Moderator :=
  let ps := players m in
  let n := length ps in
  if (n <=? mafia_id) || (n <=? target) then m else
  if negb (present ps mafia_id) || negb (present ps target) then m else
  if negb (slot_alive ps mafia_id) || negb (slot_alive ps target) then m else
  if negb (is_mafia m mafia_id) then m else
  let m := if negb (length (mafia_vote_counts_ m) =? n)
           then with_mafia_vote_counts (replicate n 0) m else m in
  let m := with_mafia_vote_counts (incr target (mafia_vote_counts_ m)) m in
  let m := if mafia_id <? length (stats_mafia_votes_ m)
           then with_stats_mafia_votes (incr mafia_id (stats_mafia_votes_ m)) m else m in
  round_append_ (JMafiaVote mafia_id target) m.

Definition investigate (detective_id target : PlayerId) (m : Moderator) : bool :=
  is_mafia m target.

Definition set_detective_shot (detective_id target : PlayerId) (m : Moderator) : Moderator :=
  let ps := players m in
  let n := length ps in
  if (n <=? detective_id) || (n <=? target) then m else
  if negb (present ps detective_id) || negb (present ps target) then m else
  if negb (slot_alive ps detective_id) || negb (slot_alive ps target) then m else
  let m := with_detective_shot (Some target) m in
  let m := if detective_id <? length (stats_detective_shots_ m)
           then with_stats_detective_shots (incr detective_id (stats_detective_shots_ m)) m
           else m in
  round_append_ (JDetectiveShot target) m.

Definition set_doctor_heal (doctor_id target : PlayerId) (m : Moderator) : Moderator :=
  let ps := players m in
  let n := length ps in
  if (n <=? doctor_id) || (n <=? target) then m else
  if negb (present ps doctor_id) || negb (present ps target) then m else
  if negb (slot_alive ps doctor_id) || negb (slot_alive ps target) then m else
  let m := with_doctor_heal (Some target) m in
  let m := if doctor_id <? length (stats_doctor_heals_ m)
           then with_stats_doctor_heals (incr doctor_id (stats_doctor_heals_ m)) m
           else m in
  round_append_ (JDoctorHeal target) m.

Definition set_maniac_target (maniac_id target : PlayerId) (m : Moderator) : Moderator :=
  let ps := players m in
  let n := length ps in
  if (n <=? maniac_id) || (n <=? target) then m else
  if negb (present ps maniac_id) || negb (present ps target) then m else
  if negb (slot_alive ps maniac_id) || negb (slot_alive ps target) then m else
  if negb (is_maniac m maniac_id) then m else
  let m := with_maniac_target (Some target) m in
  let m := if maniac_id <? length (stats_maniac_targets_ m)
           then with_stats_maniac_targets (incr maniac_id (stats_maniac_targets_ m)) m
           else m in
  round_append_ (JManiacTarget target) m.

Definition set_journalist_compare (journalist_id a b : PlayerId) (m : Moderator) : Moderator :=
  let ps := players m in
  let n := length ps in
  if (n <=? journalist_id) || (n <=? a) || (n <=? b) then m else
  if a =? b then m else
  if (journalist_id =? a) || (journalist_id =? b) then m else
  if negb (present ps journalist_id) || negb (present ps a) || negb (present ps b) then m else
  if negb (slot_alive ps journalist_id) || negb (slot_alive ps a) || negb (slot_alive ps b)
  then m else
  let m := with_journalist_queries (journalist_queries_ m ++ [mkQuery journalist_id a b]) m in
  round_append_ (JJournalistCompare journalist_id a b) m.

Definition set_eavesdropper_target (eavesdropper_id target : PlayerId) (m : Moderator)
  : Moderator :=
  let ps := players m in
  let n := length ps in
  if (n <=? eavesdropper_id) || (n <=? target) then m else
  if eavesdropper_id =? target then m else
  if negb (present ps eavesdropper_id) || negb (present ps target) then m else
  if negb (slot_alive ps eavesdropper_id) || negb (slot_alive ps target) then m else
  let m := with_eavesdrop_requests (eavesdrop_requests_ m ++ [(eavesdropper_id, target)]) m in
  round_append_ (JEavesdropperTarget eavesdropper_id target) m.

Definition clear_night_intents_ (m : Moderator) : Moderator :=
  let n := length (players m) in
  let m := with_mafia_vote_counts (replicate n 0) m in
  let m := with_detective_shot None m in
  let m := with_doctor_heal None m in
  let m := with_maniac_target None m in
  let m := with_journalist_queries [] m in
  with_eavesdrop_requests [] m.

(** ** Day resolution *)

(** One iteration of the counting loop of [resolve_day_lynch]. *)
Definition tally_step (ps : list (option IPlayer)) (votes_copy : list (option PlayerId))
    (tally : list nat) (v : nat) : list nat :=
  if negb (present ps v) || negb (slot_alive ps v) then tally else
  match votes_copy !! v with
  | Some (Some t) =>
      if (length ps <=? t) || negb (present ps t) || negb (slot_alive ps t)
      then tally else incr t tally
  | _ => tally
  end.

Definition day_tally (ps : list (option IPlayer)) (votes_copy : list (option PlayerId))
  : list nat :=
  foldl (tally_step ps votes_copy) (replicate (length ps) 0) (seq 0 (length ps)).

(** [stats_votes_received_day_[i] += tally[i]] for every [i] with votes. *)
Definition add_received (n : nat) (tally stats : list nat) : list nat :=
  foldl (λ st i, if (0 <? at0 tally i) && (i <? length st)
                 then alter (λ x, x + at0 tally i) i st else st)
        stats (seq 0 n).

(** [for (auto c : v) maxv = std::max(maxv, c)] starting from 0. *)
Definition max_of (v : list nat) : nat := foldl Nat.max 0 v.

Definition leaders_of (n : nat) (tally : list nat) (max_votes : nat) : list PlayerId :=
  filter (λ i, at0 tally i = max_votes) (seq 0 n).

Section Resolution.

(** The virtual call [ex->decide_execution(mod, leaders)] on the
    Executioner object in slot [i].  The bot draws from its own generator
    and touches neither the moderator nor the world, so within one
    resolution its answer is a function of the slot and the leaders. *)
Variable decide_execution : PlayerId → list PlayerId → option PlayerId.

(** The loop of [resolve_tie_via_executioner_] over the slots [ids]. *)
Fixpoint tie_loop (leaders : list PlayerId) (ids : list nat) (m : Moderator)
  : option PlayerId * Moderator :=
  match ids with
  | [] => (None, m)
  | i :: rest =>
      match get (players m) i with
      | None => tie_loop leaders rest m
      | Some p =>
          if negb (p_alive p) then tie_loop leaders rest m else
          if negb (bool_decide (p_role p = Role.Executioner)) then tie_loop leaders rest m else
          (* dynamic_cast<roles::Executioner*>: null for a roles::Human *)
          if negb (bool_decide (p_class p = AiClass)) then tie_loop leaders rest m else
          match decide_execution i leaders with
          | None => tie_loop leaders rest (round_append_ (JExecAbstains i) m)
          | Some victim =>
              if bool_decide (victim ∈ leaders)
              then (Some victim, round_append_ (JExecChooses victim) m)
              else tie_loop leaders rest (round_append_ (JExecInvalid i) m)
          end
      end
  end.

Definition resolve_tie_via_executioner_ (leaders : list PlayerId) (m : Moderator)
  : option PlayerId * Moderator :=
  tie_loop leaders (seq 0 (length (players m))) m.

Definition resolve_day_lynch (m : Moderator) : option PlayerId * Moderator :=
  let ps := players m in
  let n := length ps in
  let m := if negb (length (day_votes_ m) =? n)
           then with_day_votes (resize n None (day_votes_ m)) m else m in
  let votes_copy := day_votes_ m in
  let tally := day_tally ps votes_copy in
  let m := with_stats_votes_received_day
             (add_received n tally (stats_votes_received_day_ m)) m in
  let max_votes := max_of tally in
  if max_votes <=? 0 then (None, round_append_ JDayNoLynch m) else
  let leaders := leaders_of n tally max_votes in
  let single (m : Moderator) :=
    match leaders with
    | [] => (None, m) (* unreachable: the maximum is attained *)
    | victim :: _ =>
        let m := round_append_ (JDayLynch victim) m in
        let m := record_death_round victim m in
        (Some victim, kill_player victim m)
    end in
  if 1 <? length leaders then
    match tie_policy m with
    | TieNone =>
        match resolve_tie_via_executioner_ leaders m with
        | (None, m) => (None, round_append_ JDayTieNoLynch m)
        | (Some victim, m) =>
            let m := round_append_ (JDayExecutionerLynch victim) m in
            let m := record_death_round victim m in
            (Some victim, kill_player victim m)
        end
    | TieRandom =>
        match choose leaders (rng_ m) with
        | (Some victim, r) =>
            let m := with_rng r m in
            let m := round_append_ JDayTieRandom m in
            let m := round_append_ (JDayLynch victim) m in
            let m := record_death_round victim m in
            (Some victim, kill_player victim m)
        | (None, r) => (None, with_rng r m) (* unreachable: leaders is not empty *)
        end
    end
  else single m.

End Resolution.

(** ** The Executioner bot ([roles/executioner.hpp])

    [Executioner::decide_execution]: a dead Executioner and an empty list of
    leaders give no answer; otherwise a coin decides between abstaining and
    a leader picked by [choose].  With the generator of the bot in slot [i]
    this is what [decide_execution i] above stands for. *)
Module Executioner.

Definition decide_execution (alive : bool) (leaders : list PlayerId) (r : Rng)
  : option PlayerId * Rng :=
  if negb alive || bool_decide (leaders = []) then (None, r) else
  let (coin, r) := uniform_int 0 1 r in
  if coin =? 0 then (None, r) else choose leaders r.

End Executioner.

(** ** Night resolution *)

Definition mafia_tally_line (ps : list (option IPlayer)) (counts : list nat)
  : list (PlayerId * nat) :=
  omap (λ i, if (0 <? at0 counts i) && present ps i && slot_alive ps i
             then Some (i, at0 counts i) else None)
       (seq 0 (length ps)).

(** The lambda [mark_shot] of [resolve_night]. *)
Definition mark_shot (tid : option PlayerId) (src : KillSource)
    (st : list bool * Moderator) : list bool * Moderator :=
  let (to_kill, m) := st in
  match tid with
  | None => st
  | Some t =>
      if (t <? length (players m)) && present (players m) t && slot_alive (players m) t
      then (<[t := true]> to_kill, round_append_ (JMarkedBy src t) m)
      else st
  end.

Definition journalist_step (m : Moderator) (q : JournalistQuery) : Moderator :=
  let ps := players m in
  let n := length ps in
  if (n <=? q_a q) || (n <=? q_b q) then m else
  match get ps (q_a q), get ps (q_b q) with
  | Some pa, Some pb =>
      round_append_
        (JJournalistResult (q_jid q) (q_a q) (q_b q) (bool_decide (p_team pa = p_team pb))) m
  | _, _ => m
  end.

Definition is_target (o : option PlayerId) (tgt : PlayerId) : bool :=
  match o with Some t => t =? tgt | None => false end.

Definition eavesdrop_step (counts : list nat) (shot heal maniac : option PlayerId)
    (m : Moderator) (req : PlayerId * PlayerId) : Moderator :=
  let (eid, tgt) := req in
  let ps := players m in
  if (length ps <=? tgt) || negb (present ps tgt) then m else
  let seen :=
    (if (tgt <? length counts) && (0 <? at0 counts tgt) then [SawMafia (at0 counts tgt)] else [])
    ++ (if is_target shot tgt then [SawDetShot] else [])
    ++ (if is_target heal tgt then [SawDocHeal] else [])
    ++ (if is_target maniac tgt then [SawManiac] else []) in
  round_append_ (JEavesdropperResult tgt eid seen) m.

Definition death_step (m : Moderator) (id : PlayerId) : Moderator :=
  let m := record_death_round id m in
  let m := round_append_ (JDeath id) m in
  kill_player id m.

Definition resolve_night (open_ok : bool) (m : Moderator)
  : list PlayerId * Moderator * list FileEvent :=
  let ps := players m in
  let n := length ps in
  (* snapshots *)
  let m := if negb (length (mafia_vote_counts_ m) =? n)
           then with_mafia_vote_counts (replicate n 0) m else m in
  let mafia_counts_copy := mafia_vote_counts_ m in
  let detective_shot_copy := detective_shot_ m in
  let doctor_heal_copy := doctor_heal_ m in
  let maniac_target_copy := maniac_target_ m in
  let journalist_copy := journalist_queries_ m in
  let eavesdrop_copy := eavesdrop_requests_ m in
  let m := round_append_ (JMafiaTally (mafia_tally_line ps mafia_counts_copy)) m in
  (* the mafia target *)
  let maxv := max_of mafia_counts_copy in
  let '(mafia_target, m) :=
    if 0 <? maxv then
      let cands := filter (λ i, at0 mafia_counts_copy i = maxv
                                ∧ present ps i = true ∧ slot_alive ps i = true)
                          (seq 0 n) in
      match cands with
      | [] => (None, m)
      | _ => let (t, r) := choose cands (rng_ m) in (t, with_rng r m)
      end
    else (None, m) in
  (* the marks *)
  let st := (replicate n false, m) in
  let st := mark_shot mafia_target ByMafia st in
  let st := mark_shot detective_shot_copy ByDetective st in
  let st := mark_shot maniac_target_copy ByManiac st in
  let (to_kill, m) := st in
  (* the heal *)
  let '(to_kill, m) :=
    match doctor_heal_copy with
    | Some h =>
        if (h <? n) && present (players m) h && slot_alive (players m) h
        then (<[h := false]> to_kill, round_append_ (JHealCancels h) m)
        else (to_kill, m)
    | None => (to_kill, m)
    end in
  let m := foldl journalist_step m journalist_copy in
  let m := foldl (eavesdrop_step mafia_counts_copy detective_shot_copy
                                 doctor_heal_copy maniac_target_copy) m eavesdrop_copy in
  (* the deaths *)
  let deaths := filter (λ i, to_kill !! i = Some true) (seq 0 n) in
  let m := foldl death_step m deaths in
  let m := clear_night_intents_ m in
  let (m, ev) := round_write_file_ true open_ok m in
  (deaths, m, ev).

(** [Moderator::Moderator]: every per-player vector gets one entry per
    player present at construction. *)
Definition new_moderator (policy : TiePolicy) (ps : list (option IPlayer)) (r : Rng)
  : Moderator :=
  let n := length ps in
  mkModerator ps policy r
    (replicate n None) (replicate n 0) None None None [] []
    (replicate n 0) (replicate n 0) (replicate n 0) (replicate n 0)
    (replicate n 0) (replicate n 0) (replicate n 0)
    (replicate n false) 0 false [].

(* ===================================================================== *)
(** * Configuration ([core/game_config.hpp])                               *)
(* ===================================================================== *)

Inductive LogMode := Short | Full.

(** [std::size_t] fields are [N]; [seed] is a 32-bit [unsigned]. *)
Record GameConfig := mkConfig {
  n_players : N;
  seed : N;
  human : bool;
  log_mode : LogMode;
  open_announcements : bool;
  logs_dir : String.string;
  cfg_tie_policy : TiePolicy;
  k_mafia_divisor : N;
  yaml_path : String.string;
  executioner_count : N;
  journalist_count : N;
  eavesdropper_count : N;
  use_coroutines : bool
}.

Definition set_n_players (v : N) (c : GameConfig) : GameConfig :=
  mkConfig
    v (seed c) (human c) (log_mode c)
    (open_announcements c) (logs_dir c) (cfg_tie_policy c) (k_mafia_divisor c)
    (yaml_path c) (executioner_count c) (journalist_count c) (eavesdropper_count c)
    (use_coroutines c).

Definition set_seed (v : N) (c : GameConfig) : GameConfig :=
  mkConfig
    (n_players c) v (human c) (log_mode c)
    (open_announcements c) (logs_dir c) (cfg_tie_policy c) (k_mafia_divisor c)
    (yaml_path c) (executioner_count c) (journalist_count c) (eavesdropper_count c)
    (use_coroutines c).

Definition set_human (v : bool) (c : GameConfig) : GameConfig :=
  mkConfig
    (n_players c) (seed c) v (log_mode c)
    (open_announcements c) (logs_dir c) (cfg_tie_policy c) (k_mafia_divisor c)
    (yaml_path c) (executioner_count c) (journalist_count c) (eavesdropper_count c)
    (use_coroutines c).

Definition set_log_mode (v : LogMode) (c : GameConfig) : GameConfig :=
  mkConfig
    (n_players c) (seed c) (human c) v
    (open_announcements c) (logs_dir c) (cfg_tie_policy c) (k_mafia_divisor c)
    (yaml_path c) (executioner_count c) (journalist_count c) (eavesdropper_count c)
    (use_coroutines c).

Definition set_open_announcements (v : bool) (c : GameConfig) : GameConfig :=
  mkConfig
    (n_players c) (seed c) (human c) (log_mode c)
    v (logs_dir c) (cfg_tie_policy c) (k_mafia_divisor c)
    (yaml_path c) (executioner_count c) (journalist_count c) (eavesdropper_count c)
    (use_coroutines c).

Definition set_logs_dir (v : String.string) (c : GameConfig) : GameConfig :=
  mkConfig
    (n_players c) (seed c) (human c) (log_mode c)
    (open_announcements c) v (cfg_tie_policy c) (k_mafia_divisor c)
    (yaml_path c) (executioner_count c) (journalist_count c) (eavesdropper_count c)
    (use_coroutines c).

Definition set_tie_policy (v : TiePolicy) (c : GameConfig) : GameConfig :=
  mkConfig
    (n_players c) (seed c) (human c) (log_mode c)
    (open_announcements c) (logs_dir c) v (k_mafia_divisor c)
    (yaml_path c) (executioner_count c) (journalist_count c) (eavesdropper_count c)
    (use_coroutines c).

Definition set_k_mafia_divisor (v : N) (c : GameConfig) : GameConfig :=
  mkConfig
    (n_players c) (seed c) (human c) (log_mode c)
    (open_announcements c) (logs_dir c) (cfg_tie_policy c) v
    (yaml_path c) (executioner_count c) (journalist_count c) (eavesdropper_count c)
    (use_coroutines c).

Definition set_yaml_path (v : String.string) (c : GameConfig) : GameConfig :=
  mkConfig
    (n_players c) (seed c) (human c) (log_mode c)
    (open_announcements c) (logs_dir c) (cfg_tie_policy c) (k_mafia_divisor c)
    v (executioner_count c) (journalist_count c) (eavesdropper_count c)
    (use_coroutines c).

Definition set_executioner_count (v : N) (c : GameConfig) : GameConfig :=
  mkConfig
    (n_players c) (seed c) (human c) (log_mode c)
    (open_announcements c) (logs_dir c) (cfg_tie_policy c) (k_mafia_divisor c)
    (yaml_path c) v (journalist_count c) (eavesdropper_count c)
    (use_coroutines c).

Definition set_journalist_count (v : N) (c : GameConfig) : GameConfig :=
  mkConfig
    (n_players c) (seed c) (human c) (log_mode c)
    (open_announcements c) (logs_dir c) (cfg_tie_policy c) (k_mafia_divisor c)
    (yaml_path c) (executioner_count c) v (eavesdropper_count c)
    (use_coroutines c).

Definition set_eavesdropper_count (v : N) (c : GameConfig) : GameConfig :=
  mkConfig
    (n_players c) (seed c) (human c) (log_mode c)
    (open_announcements c) (logs_dir c) (cfg_tie_policy c) (k_mafia_divisor c)
    (yaml_path c) (executioner_count c) (journalist_count c) v
    (use_coroutines c).

Definition set_use_coroutines (v : bool) (c : GameConfig) : GameConfig :=
  mkConfig
    (n_players c) (seed c) (human c) (log_mode c)
    (open_announcements c) (logs_dir c) (cfg_tie_policy c) (k_mafia_divisor c)
    (yaml_path c) (executioner_count c) (journalist_count c) (eavesdropper_count c)
    v.

Definition default_config : GameConfig :=
  mkConfig 9 0 false Short false "logs" TieNone 3 String.EmptyString 1 1 1 false.

(** A call that either returns or throws a [std::exception]. *)
Inductive Outcome (A : Type) :=
| Ok (a : A)
| Throws (what : String.string).
Arguments Ok {A} a.
Arguments Throws {A} what.

(* ===================================================================== *)
(** * Engine set-up ([core/game_engine.cpp], [core/game_engine_coro.cpp])  *)
(* ===================================================================== *)

Module Engine.

(** [std::size_t] addition. *)
Definition size_add (a b : N) : N := ((a + b) mod 2 ^ 64)%N.

Definition mafia_cnt (cfg : GameConfig) : N :=
  N.max 1 (n_players cfg / N.max 3 (k_mafia_divisor cfg))%N.

Definition executioner_cnt (cfg : GameConfig) : N := N.min (executioner_count cfg) 1.
Definition journalist_cnt (cfg : GameConfig) : N := N.min (journalist_count cfg) 1.
Definition eavesdropper_cnt (cfg : GameConfig) : N := N.min (eavesdropper_count cfg) 1.

(** [fixed]: everything that is not a Citizen. *)
Definition fixed (cfg : GameConfig) : N :=
  size_add (size_add (size_add (size_add (size_add (size_add
    (mafia_cnt cfg) 1) 1) 1)
    (executioner_cnt cfg)) (journalist_cnt cfg)) (eavesdropper_cnt cfg).

(** The role bag before it is shuffled, or the exception. *)
Definition role_bag (who : String.string) (cfg : GameConfig) : Outcome (list Role.t) :=
  let total := n_players cfg in
  if (total <? fixed cfg)%N
  then Throws (String.append who ": not enough slots for mandatory + extra roles")
  else
    let citizens_cnt := (total - fixed cfg)%N in
    Ok (replicate (N.to_nat (mafia_cnt cfg)) Role.Mafia
        ++ replicate 1 Role.Detective
        ++ replicate 1 Role.Doctor
        ++ replicate 1 Role.Maniac
        ++ replicate (N.to_nat (executioner_cnt cfg)) Role.Executioner
        ++ replicate (N.to_nat (journalist_cnt cfg)) Role.Journalist
        ++ replicate (N.to_nat (eavesdropper_cnt cfg)) Role.Eavesdropper
        ++ replicate (N.to_nat citizens_cnt) Role.Citizen).

(** The team each AI class passes to [BasePlayer] in its constructor. *)
Definition class_team (r : Role.t) : Team.t :=
  match r with
  | Role.Citizen => Team.Town
  | Role.Mafia => Team.Mafia
  | Role.Detective => Team.Town
  | Role.Doctor => Team.Town
  | Role.Maniac => Team.Maniac
  | Role.Executioner => Team.Town
  | Role.Journalist => Team.Town
  | Role.Eavesdropper => Team.Town
  end.

Definition player_name (i : nat) : String.string :=
  String.append "Player_" (pretty (i + 1)).

(** One iteration of the construction loop. *)
Definition make_player (human_idx : option nat) (i : nat) (r : Role.t) : option IPlayer :=
  if bool_decide (human_idx = Some i)
  then Some (mkPlayer "You" r (team_of r) true HumanClass)
  else Some (mkPlayer (player_name i) r (class_team r) true AiClass).

(** [seed_i = cfg_.seed ^ (0x9E3779B9u * (i + 1))] in 32-bit arithmetic,
    for a non-zero global seed. *)
Definition player_seed (seed : N) (i : nat) : N :=
  N.lxor seed ((0x9E3779B9 * (N.of_nat i + 1)) mod 2 ^ 32)%N.

Section Populate.

(** [Rng::shuffle] is [std::shuffle]: it permutes the range. *)
Variable shuffle : list Role.t → Rng → list Role.t * Rng.

(** The common body of [GameEngine::setup_players_] and
    [GameEngineCoro::init_players_]; the two differ in the prefix of
    the exception text only.  The index of the interactive player is
    drawn with [uniform_int(0, int(bag.size() - 1))]. *)
Definition populate (who : String.string) (cfg : GameConfig) (rng : Rng)
  : Outcome (list (option IPlayer) * Rng) :=
  match role_bag who cfg with
  | Throws what => Throws what
  | Ok bag =>
      let (bag, rng) := shuffle bag rng in
      let (human_idx, rng) :=
        if human cfg && negb (bool_decide (bag = []))
        then let (i, rng) := uniform_int 0 (length bag - 1) rng in (Some i, rng)
        else (None, rng) in
      Ok (imap (make_player human_idx) bag, rng)
  end.

Definition setup_players_ : GameConfig → Rng → Outcome (list (option IPlayer) * Rng) :=
  populate "GameEngine::setup_players_".

Definition init_players_ : GameConfig → Rng → Outcome (list (option IPlayer) * Rng) :=
  populate "GameEngineCoro::init_players_".

End Populate.

(** How many slots of the vector hold role [r]. *)
Definition role_count (r : Role.t) (ps : list (option IPlayer)) : nat :=
  length (filter (λ slot, p_role <$> slot = Some r) ps).

End Engine.

(* ===================================================================== *)
(** * The doctor agent ([roles/doctor.cpp])                                *)
(* ===================================================================== *)

Module Doctor.

(** The fields of [roles::Doctor] that [on_night] reads or writes. *)
Record t := mk {
  id_ : PlayerId;
  prev_heal_ : option PlayerId;
  rng : Rng
}.

(** [v.erase(std::remove(v.begin(), v.end(), x), v.end())]. *)
Definition erase (x : PlayerId) (v : list PlayerId) : list PlayerId :=
  filter (λ y, y ≠ x) v.

(** The candidate list of [src/roles/doctor.cpp]: the previous target is
    taken out only when more than one player is alive, and put back
    should nothing be left. *)
Definition candidates (alive : list PlayerId) (prev : option PlayerId) : list PlayerId :=
  match prev with
  | Some p =>
      if 1 <? length alive then
        let alive := erase p alive in
        if bool_decide (alive = []) then alive ++ [p] else alive
      else alive
  | None => alive
  end.

(** [Doctor::on_night] of [src/roles/doctor.cpp]. *)
Definition on_night (d : t) (m : Moderator) : t * Moderator :=
  let alive := candidates (alive_ids (players m)) (prev_heal_ d) in
  let (it, r) := choose alive (rng d) in
  let target := default (id_ d) it in
  (mk (id_ d) (Some target) r, set_doctor_heal (id_ d) target m).

(** The candidate list of the later revision,
    [Mafia (Task 1)/src/roles/doctor.cpp]: the previous target is always
    taken out. *)
Definition candidates_strict (alive : list PlayerId) (prev : option PlayerId)
  : list PlayerId :=
  match prev with
  | Some p => erase p alive
  | None => alive
  end.

Definition skip_message : String.string :=
  "Night: doctor skips heal (no alternative to avoid consecutive heal)".

(** [Doctor::on_night] of the later revision; the third component is what
    [mod.log_info] sends to the console. *)
Definition on_night_strict (d : t) (m : Moderator)
  : t * Moderator * list String.string :=
  let alive := candidates_strict (alive_ids (players m)) (prev_heal_ d) in
  if bool_decide (alive = []) then (mk (id_ d) None (rng d), m, [skip_message]) else
  let (it, r) := choose alive (rng d) in
  let target := default (id_ d) it in
  (mk (id_ d) (Some target) r, set_doctor_heal (id_ d) target m, []).

End Doctor.

(* ===================================================================== *)
(** * The cooperative phase barrier ([coro/scheduler.hpp])                 *)
(* ===================================================================== *)

Module PhaseBarrier.

(** A [std::coroutine_handle<>]: [None] is the null handle, [Some c] the
    handle of coroutine [c]. *)
Definition handle_t := option nat.

(** [on_complete_] is a [std::function<void()>]; it is empty or holds a
    callback, of which only the identity matters here. *)
Record t := mk {
  expected_ : nat;
  arrived_ : nat;
  waiters_ : list handle_t;
  on_complete_ : option nat
}.

(** What [on_arrive_] does to the outside, in the order it does it: it
    runs the callback, which can observe the barrier as it is at that
    moment, and it resumes coroutines. *)
Inductive Event :=
| Completed (callback : nat) (arrived_seen : nat) (waiters_seen : list handle_t)
| Resumed (c : nat).

Definition new (expected : nat) (on_complete : option nat) : t :=
  mk expected 0 [] on_complete.

Section Arrive.

(** [hh.done()]. *)
Variable done : nat → bool.

(** The body of the resumption loop: [if (hh && !hh.done()) hh.resume()]. *)
Definition resume_one (hh : handle_t) : list Event :=
  match hh with
  | Some c => if done c then [] else [Resumed c]
  | None => []
  end.

Definition on_arrive_ (h : handle_t) (b : t) : t * list Event :=
  let b := mk (expected_ b) (arrived_ b) (waiters_ b ++ [h]) (on_complete_ b) in
  let b := mk (expected_ b) (S (arrived_ b)) (waiters_ b) (on_complete_ b) in
  if arrived_ b =? expected_ b then
    let b := mk (expected_ b) 0 (waiters_ b) (on_complete_ b) in
    let called :=
      match on_complete_ b with
      | Some cb => [Completed cb (arrived_ b) (waiters_ b)]
      | None => []
      end in
    let ws := waiters_ b in
    let b := mk (expected_ b) (arrived_ b) [] (on_complete_ b) in
    (b, called ++ concat (map resume_one ws))
  else (b, []).

(** Successive arrivals, with everything they do to the outside. *)
Fixpoint arrivals (hs : list handle_t) (b : t) : t * list Event :=
  match hs with
  | [] => (b, [])
  | h :: rest =>
      let (b, ev) := on_arrive_ h b in
      let (b, ev') := arrivals rest b in
      (b, ev ++ ev')
  end.

End Arrive.

End PhaseBarrier.

(* ===================================================================== *)
(** * The two entry points ([app/main.cpp])                                *)
(* ===================================================================== *)

Module Main.

(** How the process ends: [main] returns a code, or an exception leaves
    [main] and [std::terminate] aborts the process. *)
Inductive Exit :=
| ExitCode (code : nat)
| Terminated.

Definition streq (a b : String.string) : bool := String.eqb a b.

(** [s.empty()]. *)
Definition is_empty (s : String.string) : bool := String.eqb s String.EmptyString.

Definition tolower (c : Ascii.ascii) : Ascii.ascii :=
  let n := Ascii.nat_of_ascii c in
  if (65 <=? n) && (n <=? 90) then Ascii.ascii_of_nat (n + 32) else c.

Fixpoint to_lower (s : String.string) : String.string :=
  match s with
  | String.EmptyString => String.EmptyString
  | String.String c rest => String.String (tolower c) (to_lower rest)
  end.

(** The lambda [parse_bool] of the later [main]. *)
Definition parse_bool (s : String.string) : option bool :=
  let s := to_lower s in
  if streq s "1" || streq s "true" || streq s "yes" || streq s "on" then Some true else
  if streq s "0" || streq s "false" || streq s "no" || streq s "off" then Some false else
  None.

Section Process.

(** [std::strtoul(s, &end, 10)]: the value and what is left at [end]. *)
Variable strtoul : String.string → N * String.string.
(** [std::stoul(s)]: the value, or [None] when it throws. *)
Variable stoul : String.string → option N.
(** [yaml::load_config_from_yaml]: [None] when the file cannot be opened
    (the configuration is then left as it was). *)
Variable load_config_from_yaml : String.string → GameConfig → option GameConfig.
(** [Rng()] and [Rng(seed)]. *)
Variable make_rng : N → Rng.
Variable shuffle : list Role.t → Rng → list Role.t * Rng.
(** What follows the set-up of the players in [GameEngine::run] and in
    [GameEngineCoro::run]: the match itself. *)
Variable play_threads : GameConfig → list (option IPlayer) → Rng → Outcome unit.
Variable play_coro : GameConfig → list (option IPlayer) → Rng → Outcome unit.

Definition parse_uint (s : String.string) : option N :=
  if is_empty s then None else
  let (v, rest) := strtoul s in
  if negb (is_empty rest) then None else Some (v mod 2 ^ 32)%N.

Definition parse_size (s : String.string) : option N :=
  if is_empty s then None else
  let (v, rest) := strtoul s in
  if negb (is_empty rest) then None else Some v.

(** [GameEngine engine(cfg, root); engine.run();] *)
Definition GameEngine_run (cfg : GameConfig) : Outcome unit :=
  match Engine.setup_players_ shuffle cfg (make_rng (seed cfg)) with
  | Throws what => Throws what
  | Ok (ps, r) =>
      if length ps =? 0 then Throws "GameEngine::run: no players"
      else play_threads cfg ps r
  end.

(** [GameEngineCoro engine(cfg, root); engine.run();] *)
Definition GameEngineCoro_run (cfg : GameConfig) : Outcome unit :=
  match Engine.init_players_ shuffle cfg (make_rng (seed cfg)) with
  | Throws what => Throws what
  | Ok (ps, r) =>
      if length ps =? 0 then Ok tt
      else play_coro cfg ps r
  end.

(** ** [src/app/main.cpp] *)

(** The option loop; [inl] is a [return] out of [main]. *)
Fixpoint parse_cli (args : list String.string) (cfg : GameConfig)
  : Exit + GameConfig :=
  match args with
  | [] => inr cfg
  | a :: rest =>
      if streq a "-h" || streq a "--help" then inl (ExitCode 0) else
      match rest with
      | v :: rest' =>
          if streq a "--n" then
            match parse_size v with
            | Some x => parse_cli rest' (set_n_players x cfg)
            | None => inl (ExitCode 1)
            end
          else if streq a "--seed" then
            match parse_uint v with
            | Some x => parse_cli rest' (set_seed x cfg)
            | None => inl (ExitCode 1)
            end
          else if streq a "--human" then parse_cli rest (set_human true cfg)
          else if streq a "--log" then
            if streq v "short" then parse_cli rest' (set_log_mode Short cfg)
            else if streq v "full" then parse_cli rest' (set_log_mode Full cfg)
            else inl (ExitCode 1)
          else if streq a "--open" then parse_cli rest (set_open_announcements true cfg)
          else if streq a "--logs-dir" then parse_cli rest' (set_logs_dir v cfg)
          else if streq a "--tie" then
            if streq v "none" then parse_cli rest' (set_tie_policy TieNone cfg)
            else if streq v "random" then parse_cli rest' (set_tie_policy TieRandom cfg)
            else inl (ExitCode 1)
          else if streq a "--k-mafia-div" then
            match parse_size v with
            | Some x => if (x =? 0)%N then inl (ExitCode 1)
                        else parse_cli rest' (set_k_mafia_divisor x cfg)
            | None => inl (ExitCode 1)
            end
          else if streq a "--yaml" then parse_cli rest' (set_yaml_path v cfg)
          else if streq a "--exec" then
            match parse_size v with
            | Some x => if (1 <? x)%N then inl (ExitCode 1)
                        else parse_cli rest' (set_executioner_count x cfg)
            | None => inl (ExitCode 1)
            end
          else if streq a "--journ" then
            match parse_size v with
            | Some x => if (1 <? x)%N then inl (ExitCode 1)
                        else parse_cli rest' (set_journalist_count x cfg)
            | None => inl (ExitCode 1)
            end
          else if streq a "--ears" then
            match parse_size v with
            | Some x => if (1 <? x)%N then inl (ExitCode 1)
                        else parse_cli rest' (set_eavesdropper_count x cfg)
            | None => inl (ExitCode 1)
            end
          else inl (ExitCode 1)
      | [] =>
          if streq a "--human" then parse_cli rest (set_human true cfg)
          else if streq a "--open" then parse_cli rest (set_open_announcements true cfg)
          else inl (ExitCode 1)
      end
  end.

(** [if (!cfg.yaml_path.empty()) if (!load_config_from_yaml(...)) return 1;] *)
Definition load_yaml_or_fail (cfg : GameConfig) : option GameConfig :=
  if negb (is_empty (yaml_path cfg))
  then load_config_from_yaml (yaml_path cfg) cfg
  else Some cfg.

(** [main] of [src/app/main.cpp]. *)
Definition main (args : list String.string) : Exit :=
  match parse_cli args default_config with
  | inl e => e
  | inr cfg =>
      match load_yaml_or_fail cfg with
      | None => ExitCode 1
      | Some cfg =>
          match GameEngine_run cfg with
          | Ok _ => ExitCode 0
          | Throws _ => ExitCode 2
          end
      end
  end.

(** ** [Mafia (Task 1)/app/main.cpp] *)

(** The pre-scan for [--yaml]: [inl] is the early [return 1]. *)
Fixpoint prescan_yaml (args : list String.string) (cfg : GameConfig)
  : Exit + GameConfig :=
  match args with
  | [] => inr cfg
  | a :: rest =>
      if streq a "--yaml" then
        match rest with
        | v :: _ => inr (set_yaml_path v cfg)
        | [] => inl (ExitCode 1)
        end
      else prescan_yaml rest cfg
  end.

(** The full option loop.  [std::stoul] is called outside any [try], so
    when it throws the process is terminated. *)
Fixpoint parse_cli_task1 (args : list String.string) (cfg : GameConfig)
  : Exit + GameConfig :=
  match args with
  | [] => inr cfg
  | a :: rest =>
      if streq a "--n" then
        match rest with
        | [] => inl (ExitCode 1)
        | v :: rest' =>
            match stoul v with
            | Some x => parse_cli_task1 rest' (set_n_players x cfg)
            | None => inl Terminated
            end
        end
      else if streq a "--seed" then
        match rest with
        | [] => inl (ExitCode 1)
        | v :: rest' =>
            match stoul v with
            | Some x => parse_cli_task1 rest' (set_seed (x mod 2 ^ 32)%N cfg)
            | None => inl Terminated
            end
        end
      else if streq a "--human" then
        match rest with
        | next :: rest' =>
            if negb (is_empty next) && negb (String.prefix "-" next) then
              match parse_bool next with
              | Some b => parse_cli_task1 rest' (set_human b cfg)
              | None => parse_cli_task1 rest (set_human true cfg)
              end
            else parse_cli_task1 rest (set_human true cfg)
        | [] => parse_cli_task1 rest (set_human true cfg)
        end
      else if String.prefix "--human=" a then
        match parse_bool (String.substring 8 (String.length a - 8) a) with
        | Some b => parse_cli_task1 rest (set_human b cfg)
        | None => parse_cli_task1 rest (set_human true cfg)
        end
      else if streq a "--log" then
        match rest with
        | [] => inl (ExitCode 1)
        | v :: rest' =>
            if streq v "short" then parse_cli_task1 rest' (set_log_mode Short cfg)
            else if streq v "full" then parse_cli_task1 rest' (set_log_mode Full cfg)
            else inl (ExitCode 1)
        end
      else if streq a "--open" then parse_cli_task1 rest (set_open_announcements true cfg)
      else if streq a "--logs-dir" || streq a "--logs_dir" then
        match rest with
        | [] => inl (ExitCode 1)
        | v :: rest' => parse_cli_task1 rest' (set_logs_dir v cfg)
        end
      else if streq a "--tie" then
        match rest with
        | [] => inl (ExitCode 1)
        | v :: rest' =>
            if streq v "none" then parse_cli_task1 rest' (set_tie_policy TieNone cfg)
            else if streq v "random" then parse_cli_task1 rest' (set_tie_policy TieRandom cfg)
            else inl (ExitCode 1)
        end
      else if streq a "--k-mafia-div" then
        match rest with
        | [] => inl (ExitCode 1)
        | v :: rest' =>
            match stoul v with
            | Some x =>
                parse_cli_task1 rest'
                  (set_k_mafia_divisor (if (x <? 1)%N then 1%N else x) cfg)
            | None => inl Terminated
            end
        end
      else if streq a "--exec" then
        match rest with
        | [] => inl (ExitCode 1)
        | v :: rest' =>
            match stoul v with
            | Some x =>
                parse_cli_task1 rest'
                  (set_executioner_count (if (1 <? x)%N then 1%N else x) cfg)
            | None => inl Terminated
            end
        end
      else if streq a "--journ" then
        match rest with
        | [] => inl (ExitCode 1)
        | v :: rest' =>
            match stoul v with
            | Some x =>
                parse_cli_task1 rest'
                  (set_journalist_count (if (1 <? x)%N then 1%N else x) cfg)
            | None => inl Terminated
            end
        end
      else if streq a "--ears" then
        match rest with
        | [] => inl (ExitCode 1)
        | v :: rest' =>
            match stoul v with
            | Some x =>
                parse_cli_task1 rest'
                  (set_eavesdropper_count (if (1 <? x)%N then 1%N else x) cfg)
            | None => inl Terminated
            end
        end
      else if streq a "--yaml" then
        match rest with
        | [] => inl (ExitCode 1)
        | v :: rest' => parse_cli_task1 rest' (set_yaml_path v cfg)
        end
      else if streq a "--coro" then parse_cli_task1 rest (set_use_coroutines true cfg)
      else if streq a "-h" || streq a "--help" then inl (ExitCode 0)
      else inl (ExitCode 1)
  end.

(** Everything [main] does to the configuration before it starts an
    engine: the pre-scan, the YAML file (whose failure to load is ignored),
    the options, the downgrade of the coroutine engine for an interactive
    player, the default logs directory. *)
Definition effective_config (args : list String.string) : Exit + GameConfig :=
  match prescan_yaml args default_config with
  | inl e => inl e
  | inr cfg =>
      let cfg :=
        if negb (is_empty (yaml_path cfg))
        then default cfg (load_config_from_yaml (yaml_path cfg) cfg)
        else cfg in
      match parse_cli_task1 args cfg with
      | inl e => inl e
      | inr cfg =>
          let cfg := if use_coroutines cfg && human cfg
                     then set_use_coroutines false cfg else cfg in
          let cfg := if is_empty (logs_dir cfg) then set_logs_dir "logs" cfg else cfg in
          inr cfg
      end
  end.

(** The [try] block. *)
Definition run_engine (cfg : GameConfig) : Outcome unit :=
  if use_coroutines cfg then GameEngineCoro_run cfg else GameEngine_run cfg.

(** [main] of [Mafia (Task 1)/app/main.cpp]. *)
Definition main_task1 (args : list String.string) : Exit :=
  match effective_config args with
  | inl e => e
  | inr cfg =>
      match run_engine cfg with
      | Ok _ => ExitCode 0
      | Throws _ => ExitCode 1
      end
  end.

End Process.

End Main.

(* ===================================================================== *)
(** * Sequences of moderator calls                                         *)
(* ===================================================================== *)

(** The public operations of the moderator as the engines and the agents
    call them.  [open_ok] is whether the round file could be opened at that
    call; [decide] stands for the Executioner objects asked on a tie. *)
Inductive Call :=
| CClearDayVotes
| CSubmitDayVote (voter target : PlayerId)
| CResolveDayLynch (decide : PlayerId → list PlayerId → option PlayerId)
| CMafiaVoteTarget (mafia_id target : PlayerId)
| CSetDetectiveShot (detective_id target : PlayerId)
| CSetDoctorHeal (doctor_id target : PlayerId)
| CSetManiacTarget (maniac_id target : PlayerId)
| CSetJournalistCompare (journalist_id a b : PlayerId)
| CSetEavesdropperTarget (eavesdropper_id target : PlayerId)
| CResolveNight (open_ok : bool)
| CKillPlayer (id : PlayerId)
| CFinalizeRoundFile (open_ok : bool).

Definition exec (c : Call) (m : Moderator) : Moderator * list FileEvent :=
  match c with
  | CClearDayVotes => (clear_day_votes m, [])
  | CSubmitDayVote v t => (submit_day_vote v t m, [])
  | CResolveDayLynch decide => ((resolve_day_lynch decide m).2, [])
  | CMafiaVoteTarget i t => (mafia_vote_target i t m, [])
  | CSetDetectiveShot i t => (set_detective_shot i t m, [])
  | CSetDoctorHeal i t => (set_doctor_heal i t m, [])
  | CSetManiacTarget i t => (set_maniac_target i t m, [])
  | CSetJournalistCompare j a b => (set_journalist_compare j a b m, [])
  | CSetEavesdropperTarget e t => (set_eavesdropper_target e t m, [])
  | CResolveNight open_ok => let '(_, m, ev) := resolve_night open_ok m in (m, ev)
  | CKillPlayer id => (kill_player id m, [])
  | CFinalizeRoundFile open_ok => finalize_round_file_if_pending open_ok m
  end.

Fixpoint run (cs : list Call) (m : Moderator) : Moderator * list FileEvent :=
  match cs with
  | [] => (m, [])
  | c :: rest =>
      let (m, ev) := exec c m in
      let (m, ev') := run rest m in
      (m, ev ++ ev')
  end.

(** What the agents submit between two barriers. *)
Definition is_intent (c : Call) : bool :=
  match c with
  | CSubmitDayVote _ _ | CMafiaVoteTarget _ _ | CSetDetectiveShot _ _
  | CSetDoctorHeal _ _ | CSetManiacTarget _ _ | CSetJournalistCompare _ _ _
  | CSetEavesdropperTarget _ _ => true
  | _ => false
  end.

(** One round as both engines drive it: [clear_day_votes], the day votes,
    [resolve_day_lynch]; then either the night ([r_night = Some _]: the
    night intents and [resolve_night]) or, when [evaluate_winner] ended the
    match after the day, [finalize_round_file_if_pending]. *)
Record Round := mkRound {
  r_day : list Call;
  r_decide : PlayerId → list PlayerId → option PlayerId;
  r_night : option (list Call);
  r_open_ok : bool
}.

Definition round_calls (r : Round) : list Call :=
  CClearDayVotes :: r_day r ++ [CResolveDayLynch (r_decide r)]
  ++ match r_night r with
     | Some intents => intents ++ [CResolveNight (r_open_ok r)]
     | None => [CFinalizeRoundFile (r_open_ok r)]
     end.

Definition well_formed (r : Round) : Prop :=
  forallb is_intent (r_day r) = true
  ∧ forallb is_intent (default [] (r_night r)) = true.

(** The whole match: its rounds, then the calls of
    [finalize_round_file_if_pending] made once the match is over (from
    [check_end_conditions_] after a night, and at the end of
    [GameEngineCoro::run]). *)
Definition match_calls (rounds : list Round) (final_opens : list bool) : list Call :=
  concat (map round_calls rounds) ++ map CFinalizeRoundFile final_opens.

(** What an event says about the round file, leaving its lines aside: the
    round index, and the closing line if the file was written. *)
Definition summary (e : FileEvent) : nat * option bool :=
  match e with
  | OpenFailed r => (r, None)
  | Written f => (rf_round f, Some (rf_night_completed f))
  end.

(** What round number [k] is expected to leave on disk. *)
Definition expected_summary (k : nat) (r : Round) : nat * option bool :=
  (k, if r_open_ok r then Some (bool_decide (is_Some (r_night r))) else None).

(** ** The round loop ([GameEngine::run], [GameEngineCoro::run])

    What surrounds the moderator during a match: the calls the agents make
    between the barriers of a day and of a night, the answers of the
    Executioner objects, and whether the file of round [R] can be opened. *)
Record Table := mkTable {
  t_day : Moderator → list Call;
  t_ask : Moderator → PlayerId → list PlayerId → option PlayerId;
  t_night : Moderator → list Call;
  t_open : nat → bool
}.

(** [check_end_conditions_], without the summary file. *)
Definition check_end_conditions_ (tb : Table) (m : Moderator)
  : bool * Moderator * list FileEvent :=
  if bool_decide (evaluate_winner m ≠ Winner.NoWinner)
  then let (m, ev) := finalize_round_file_if_pending (t_open tb (round_index_ m)) m in
       (true, m, ev)
  else (false, m, []).

(** The main loop of [GameEngine::run], at most [fuel] rounds of it: the
    day ([clear_day_votes], the votes, [resolve_day_lynch]), the check for
    the end, the night (the intents, [resolve_night]), the check for the
    end.  The callbacks that [GameEngineCoro::run] attaches to its barriers
    make the same calls in the same order. *)
Fixpoint game_loop (fuel : nat) (tb : Table) (m : Moderator) : Moderator * list FileEvent :=
  match fuel with
  | 0 => (m, [])
  | S fuel =>
      let m := clear_day_votes m in
      let (m, ev1) := run (t_day tb m) m in
      let m := (resolve_day_lynch (t_ask tb m) m).2 in
      let '(over, m, ev2) := check_end_conditions_ tb m in
      if over then (m, ev1 ++ ev2) else
      let (m, ev3) := run (t_night tb m) m in
      let '(_, m, ev4) := resolve_night (t_open tb (round_index_ m)) m in
      let '(over, m, ev5) := check_end_conditions_ tb m in
      if over then (m, ev1 ++ ev2 ++ ev3 ++ ev4 ++ ev5) else
      let (m, ev6) := game_loop fuel tb m in
      (m, ev1 ++ ev2 ++ ev3 ++ ev4 ++ ev5 ++ ev6)
  end.

(** [GameEngineCoro::run] ends with one more call of
    [finalize_round_file_if_pending]. *)
Definition game_loop_coro (fuel : nat) (tb : Table) (m : Moderator)
  : Moderator * list FileEvent :=
  let (m, ev) := game_loop fuel tb m in
  let (m, ev') := finalize_round_file_if_pending (t_open tb (round_index_ m)) m in
  (m, ev ++ ev').

(** The agents call nothing but the intent submissions. *)
Definition only_intents (tb : Table) : Prop :=
  ∀ m, forallb is_intent (t_day tb m) = true ∧ forallb is_intent (t_night tb m) = true.

(* ===================================================================== *)
(** * Vocabulary of the properties                                         *)
(* ===================================================================== *)

(** A living member of team [t] sits in the slot. *)
Definition alive_on (t : Team.t) (slot : option IPlayer) : Prop :=
  ∃ p, slot = Some p ∧ p_alive p = true ∧ p_team p = t.

#[global] Instance alive_on_dec t slot : Decision (alive_on t slot).
Proof.
  destruct slot as [p|]; [|right; intros (q & ? & _); discriminate].
  destruct (p_alive p) eqn:Ha; [|right; intros (q & [= <-] & ? & _); congruence].
  destruct (decide (p_team p = t)) as [Ht|Ht].
  - left. by exists p.
  - right. intros (q & [= <-] & _ & ?). contradiction.
Defined.

(** The number of living members of team [t]. *)
Definition living (t : Team.t) (m : Moderator) : nat :=
  length (filter (alive_on t) (players m)).

(** A small table used in the examples: a Mafia member, a Maniac, a Doctor
    and a Citizen, all alive and all played by the program. *)
Definition ai (i : nat) (r : Role.t) : option IPlayer :=
  Some (mkPlayer (Engine.player_name i) r (Engine.class_team r) true AiClass).

Definition table4 : list (option IPlayer) :=
  [ai 0 Role.Mafia; ai 1 Role.Maniac; ai 2 Role.Doctor; ai 3 Role.Citizen].

Definition rng0 : Rng := mkRng (λ _, 0) 0.

Definition mod4 : Moderator := new_moderator TieNone table4 rng0.

(* ===================================================================== *)
(** * Properties                                                           *)
(* ===================================================================== *)

(** ** The winner *)

Lemma counts_for_alive_on t slot : counts_for t slot = true ↔ alive_on t slot.
Proof.
  unfold counts_for, alive_on. destruct slot as [p|].
  - rewrite andb_true_iff, bool_decide_eq_true. split.
    + intros [? ?]. by exists p.
    + intros (q & [= <-] & ? & ?). done.
  - split; [done | intros (q & ? & _); discriminate].
Qed.

Lemma count_loop_living t ps c :
  count_loop t ps c = c + length (filter (alive_on t) ps).
Proof.
  revert c. induction ps as [|slot ps IH]; intros c; simpl.
  - lia.
  - rewrite IH, filter_cons. destruct (counts_for t slot) eqn:E.
    + apply counts_for_alive_on in E. rewrite decide_True by done. simpl. lia.
    + rewrite decide_False; [done|]. intros H. apply counts_for_alive_on in H. congruence.
Qed.

Lemma alive_mafia_count_living m : alive_mafia_count_ m = living Team.Mafia m.
Proof. unfold alive_mafia_count_, living. by rewrite count_loop_living. Qed.

Lemma alive_maniac_count_living m : alive_maniac_count_ m = living Team.Maniac m.
Proof. unfold alive_maniac_count_, living. by rewrite count_loop_living. Qed.

Lemma alive_town_count_living m : alive_town_count_ m = living Team.Town m.
Proof. unfold alive_town_count_, living. by rewrite count_loop_living. Qed.

(** C1.  [evaluate_winner] decides by the numbers of living Mafia, Maniac
    and Town players, in this order of priority: Town when there is neither
    Mafia nor Maniac; otherwise Maniac when there is no Mafia, one Maniac
    and one Town player; otherwise Mafia when the Mafia are at least one and
    at least as many as Town and Maniac together; otherwise no winner. *)
Theorem evaluate_winner_priority (m : Moderator) :
  let maf := living Team.Mafia m in
  let man := living Team.Maniac m in
  let town := living Team.Town m in
  let town_wins := maf = 0 ∧ man = 0 in
  let maniac_wins := maf = 0 ∧ man = 1 ∧ town = 1 in
  let mafia_wins := 0 < maf ∧ town + man ≤ maf in
  (town_wins → evaluate_winner m = Winner.Town)
  ∧ (¬ town_wins → maniac_wins → evaluate_winner m = Winner.Maniac)
  ∧ (¬ town_wins → ¬ maniac_wins → mafia_wins → evaluate_winner m = Winner.Mafia)
  ∧ (¬ town_wins → ¬ maniac_wins → ¬ mafia_wins → evaluate_winner m = Winner.NoWinner).
Proof.
  intros maf man town town_wins maniac_wins mafia_wins.
  unfold evaluate_winner.
  rewrite alive_mafia_count_living, alive_maniac_count_living, alive_town_count_living.
  fold maf man town.
  destruct (Nat.eqb_spec maf 0) as [Hmaf|Hmaf];
    destruct (Nat.eqb_spec man 0) as [Hman0|Hman0];
    destruct (Nat.eqb_spec man 1) as [Hman1|Hman1];
    destruct (Nat.eqb_spec town 1) as [Htown|Htown];
    destruct (Nat.ltb_spec 0 maf) as [Hpos|Hpos];
    destruct (Nat.leb_spec (town + man) maf) as [Hle|Hle];
    simpl; unfold town_wins, maniac_wins, mafia_wins;
    repeat split; intros; try reflexivity; exfalso; lia || tauto.
Qed.

(** The four outcomes on the example table, as players die. *)
Lemma evaluate_winner_priority_witness :
  evaluate_winner mod4 = Winner.NoWinner
  ∧ evaluate_winner (kill_player 3 (kill_player 2 mod4)) = Winner.Mafia
  ∧ evaluate_winner (kill_player 3 (kill_player 0 mod4)) = Winner.Maniac
  ∧ evaluate_winner (kill_player 1 (kill_player 0 mod4)) = Winner.Town.
Proof.
  split; [|split; [|split]].
  - apply (evaluate_winner_priority mod4); vm_compute; lia.
  - apply (evaluate_winner_priority (kill_player 3 (kill_player 2 mod4))); vm_compute; lia.
  - apply (evaluate_winner_priority (kill_player 3 (kill_player 0 mod4))); vm_compute; lia.
  - apply (evaluate_winner_priority (kill_player 1 (kill_player 0 mod4))); vm_compute; lia.
Defined.

(** ** Investigation *)

Lemma get_Some ps i p : get ps i = Some p ↔ ps !! i = Some (Some p).
Proof.
  unfold get. destruct (ps !! i) as [[q|]|]; split; intros H; by simplify_eq.
Qed.

Lemma is_mafia_spec m id :
  is_mafia m id = true ↔
  id < length (players m)
  ∧ ∃ p, players m !! id = Some (Some p) ∧ p_alive p = true ∧ p_team p = Team.Mafia.
Proof.
  unfold is_mafia, present, slot_alive, slot_team_is.
  rewrite !andb_true_iff, Nat.ltb_lt. split.
  - intros [[[Hlt _] Ha] Ht]. split; [done|].
    destruct (get (players m) id) as [p|] eqn:E; [|done].
    exists p. apply get_Some in E. by apply bool_decide_eq_true in Ht.
  - intros [Hlt (p & Hp & Ha & Ht)]. apply get_Some in Hp. rewrite Hp.
    repeat split; try done. by apply bool_decide_eq_true.
Qed.

(** C10.  [investigate(d, t)] answers [true] exactly when [t] is in range,
    its slot holds a player, that player is alive and is on team Mafia.  So
    the Maniac is reported as not Mafia, a dead Mafia member is reported as
    not Mafia, and the detective id passed in plays no part. *)
Theorem investigate_alive_mafia_only (m : Moderator) :
  (∀ d t, investigate d t m = true ↔
          t < length (players m)
          ∧ ∃ p, players m !! t = Some (Some p)
                 ∧ p_alive p = true ∧ p_team p = Team.Mafia)
  ∧ (∀ d t p, players m !! t = Some (Some p) → p_team p = Team.Maniac →
              investigate d t m = false)
  ∧ (∀ d t p, players m !! t = Some (Some p) → p_alive p = false →
              investigate d t m = false)
  ∧ (∀ d d' t, investigate d t m = investigate d' t m).
Proof.
  split; [|split; [|split]].
  - intros d t. apply is_mafia_spec.
  - intros d t p Hp Ht. apply not_true_is_false. intros H.
    apply is_mafia_spec in H as [_ (q & Hq & _ & Hm)]. congruence.
  - intros d t p Hp Ha. apply not_true_is_false. intros H.
    apply is_mafia_spec in H as [_ (q & Hq & Hl & _)]. congruence.
  - done.
Qed.

(** On the example table: the Mafia member is found, the Maniac is not, and
    once killed the Mafia member is not found any more. *)
Lemma investigate_alive_mafia_only_witness :
  investigate 2 0 mod4 = true
  ∧ investigate 2 1 mod4 = false
  ∧ investigate 2 0 (kill_player 0 mod4) = false.
Proof.
  split; [|split].
  - apply (investigate_alive_mafia_only mod4). split; [vm_compute; lia|].
    eexists. split; [reflexivity|]. split; reflexivity.
  - eapply (proj1 (proj2 (investigate_alive_mafia_only mod4))); reflexivity.
  - eapply (proj1 (proj2 (proj2 (investigate_alive_mafia_only (kill_player 0 mod4)))));
      reflexivity.
Defined.

(** ** Night resolution: the heal *)

(** [m'] has the players of [m] and at least the journal lines of [m]. *)
Definition keeps (m m' : Moderator) : Prop :=
  players m' = players m ∧ ∀ l, l ∈ round_log_ m → l ∈ round_log_ m'.

(** [m'] has at least the journal lines of [m]. *)
Definition grows (m m' : Moderator) : Prop :=
  ∀ l, l ∈ round_log_ m → l ∈ round_log_ m'.

Lemma keeps_refl m : keeps m m.
Proof. by split. Qed.

Lemma keeps_trans m1 m2 m3 : keeps m1 m2 → keeps m2 m3 → keeps m1 m3.
Proof. intros [H1 H2] [H3 H4]. split; [congruence | auto]. Qed.

Lemma keeps_grows m m' : keeps m m' → grows m m'.
Proof. by intros [_ ?]. Qed.

Lemma grows_refl m : grows m m.
Proof. by intros l. Qed.

Lemma grows_trans m1 m2 m3 : grows m1 m2 → grows m2 m3 → grows m1 m3.
Proof. unfold grows. auto. Qed.

Lemma keeps_round_append line m : keeps m (round_append_ line m).
Proof.
  split; [done|]. intros l Hl. unfold round_append_. simpl.
  apply elem_of_app. by left.
Qed.

Lemma round_append_logged line m : line ∈ round_log_ (round_append_ line m).
Proof. unfold round_append_. simpl. apply elem_of_app. right. by apply list_elem_of_singleton. Qed.

Lemma keeps_foldl {A} (f : Moderator → A → Moderator) (xs : list A) m :
  (∀ m x, keeps m (f m x)) → keeps m (foldl f m xs).
Proof.
  intros Hf. revert m. induction xs as [|x xs IH]; intros m; simpl.
  - apply keeps_refl.
  - eapply keeps_trans; [apply Hf | apply IH].
Qed.

Lemma keeps_journalist_step m q : keeps m (journalist_step m q).
Proof.
  unfold journalist_step. repeat case_match; try apply keeps_refl.
  apply keeps_round_append.
Qed.

Lemma keeps_eavesdrop_step counts shot heal maniac m req :
  keeps m (eavesdrop_step counts shot heal maniac m req).
Proof.
  unfold eavesdrop_step. destruct req as [eid tgt].
  case_match; [apply keeps_refl | apply keeps_round_append].
Qed.

Lemma mark_shot_keeps tid src tk m :
  keeps m (mark_shot tid src (tk, m)).2
  ∧ length (mark_shot tid src (tk, m)).1 = length tk.
Proof.
  unfold mark_shot. destruct tid as [t|]; simpl; [|split; [apply keeps_refl | done]].
  case_match; simpl.
  - split; [apply keeps_round_append | by rewrite length_insert].
  - split; [apply keeps_refl | done].
Qed.

Lemma kill_player_log id m : round_log_ (kill_player id m) = round_log_ m.
Proof. unfold kill_player. by repeat case_match. Qed.

Lemma kill_player_other id h m :
  id ≠ h → slot_alive (players (kill_player id m)) h = slot_alive (players m) h.
Proof.
  intros Hne. unfold kill_player. repeat case_match; try done.
  simpl. unfold slot_alive, get. by rewrite list_lookup_insert_ne.
Qed.

Lemma record_death_round_keeps id m : keeps m (record_death_round id m).
Proof. unfold record_death_round. case_match; by split. Qed.

Lemma death_step_grows m id : grows m (death_step m id).
Proof.
  unfold death_step. intros l Hl. rewrite kill_player_log.
  apply keeps_round_append. by apply record_death_round_keeps.
Qed.

Lemma death_step_other m id h :
  id ≠ h → slot_alive (players (death_step m id)) h = slot_alive (players m) h.
Proof.
  intros Hne. unfold death_step. rewrite kill_player_other by done.
  pose proof (keeps_round_append (JDeath id) (record_death_round id m)) as [-> _].
  by pose proof (record_death_round_keeps id m) as [-> _].
Qed.

Lemma death_loop_spares m ids h :
  h ∉ ids →
  slot_alive (players (foldl death_step m ids)) h = slot_alive (players m) h
  ∧ grows m (foldl death_step m ids).
Proof.
  revert m. induction ids as [|id ids IH]; intros m Hh; simpl.
  - split; [done | apply grows_refl].
  - apply not_elem_of_cons in Hh as [Hne Hh].
    destruct (IH (death_step m id) Hh) as [-> Hg]. split.
    + by apply death_step_other.
    + eapply grows_trans; [apply death_step_grows | done].
Qed.

Lemma clear_night_intents_keeps m : keeps m (clear_night_intents_ m).
Proof. by split. Qed.

Lemma round_write_file_keeps nc ok m : keeps m (round_write_file_ nc ok m).1.
Proof. unfold round_write_file_. repeat case_match; by split. Qed.

(** C3.  When the doctor's heal names a living player [h], that player is
    not among the dead of the night and is still alive afterwards, whatever
    the mafia tally, the detective's shot and the maniac's target are; and
    the line "heal-cancels" is in the journal in every case, whether or not
    a mark on [h] was there to cancel. *)
Theorem resolve_night_heal_protects (open_ok : bool) (m : Moderator) (h : PlayerId) :
  doctor_heal_ m = Some h →
  is_alive m h = true →
  (h ∉ fst (fst (resolve_night open_ok m)))
  ∧ slot_alive (players (snd (fst (resolve_night open_ok m)))) h = true
  ∧ JHealCancels h ∈ round_log_ (snd (fst (resolve_night open_ok m))).
Proof.
  intros Hheal Halive.
  unfold is_alive in Halive. apply andb_true_iff in Halive as [Hlp Hsa].
  apply andb_true_iff in Hlp as [Hlt Hpr].
  unfold resolve_night.
  set (n := length (players m)).
  assert (Hlt' : (h <? n) = true) by exact Hlt.
  set (m1 := if negb (length (mafia_vote_counts_ m) =? n)
             then with_mafia_vote_counts (replicate n 0) m else m).
  assert (K1 : keeps m m1 ∧ doctor_heal_ m1 = doctor_heal_ m).
  { unfold m1. case_match; by repeat split. }
  destruct K1 as [K1 Hh1]. rewrite Hh1, Hheal.
  set (m2 := round_append_ _ m1).
  assert (K2 : keeps m m2).
  { eapply keeps_trans; [exact K1 | apply keeps_round_append]. }
  set (sel := if 0 <? max_of (mafia_vote_counts_ m1) then _ else _).
  assert (K3 : keeps m sel.2).
  { unfold sel. case_match; [|exact K2]. case_match; [exact K2|].
    case_match. simpl. eapply keeps_trans; [exact K2 | by split]. }
  destruct sel as [mafia_target m3]. simpl in K3.
  pose proof (mark_shot_keeps mafia_target ByMafia (replicate n false) m3) as [Ka La].
  destruct (mark_shot mafia_target ByMafia (replicate n false, m3)) as [tk1 m4].
  pose proof (mark_shot_keeps (detective_shot_ m1) ByDetective tk1 m4) as [Kb Lb].
  destruct (mark_shot (detective_shot_ m1) ByDetective (tk1, m4)) as [tk2 m5].
  pose proof (mark_shot_keeps (maniac_target_ m1) ByManiac tk2 m5) as [Kc Lc].
  destruct (mark_shot (maniac_target_ m1) ByManiac (tk2, m5)) as [tk3 m6].
  simpl in *.
  assert (K6 : keeps m m6) by eauto using keeps_trans.
  assert (L3 : length tk3 = n).
  { rewrite Lc, Lb, La. apply length_replicate. }
  destruct K6 as [P6 G6]. rewrite P6. fold n. rewrite Hlt', Hpr, Hsa. simpl.
  set (m7 := round_append_ (JHealCancels h) m6).
  assert (K7 : keeps m m7 ∧ JHealCancels h ∈ round_log_ m7).
  { split; [|apply round_append_logged].
    eapply keeps_trans; [split; [exact P6 | exact G6] | apply keeps_round_append]. }
  destruct K7 as [K7 Hin7].
  set (m8 := foldl journalist_step m7 _).
  assert (K8 : keeps m7 m8) by (apply keeps_foldl, keeps_journalist_step).
  set (m9 := foldl (eavesdrop_step _ _ _ _) m8 _).
  assert (K9 : keeps m8 m9).
  { apply keeps_foldl. intros. apply keeps_eavesdrop_step. }
  set (deaths := filter _ (seq 0 n)).
  assert (Hnot : h ∉ deaths).
  { unfold deaths. rewrite list_elem_of_filter. intros [Hk _].
    rewrite list_lookup_insert_eq in Hk; [done|].
    rewrite L3. by apply Nat.ltb_lt. }
  destruct (death_loop_spares m9 deaths h Hnot) as [Hsp Hgr].
  set (m10 := foldl death_step m9 deaths) in *.
  pose proof (clear_night_intents_keeps m10) as K11.
  pose proof (round_write_file_keeps true open_ok (clear_night_intents_ m10)) as K12.
  destruct (round_write_file_ true open_ok (clear_night_intents_ m10)) as [m12 ev].
  simpl in *. split; [exact Hnot|].
  destruct K12 as [P12 G12]. destruct K11 as [P11 G11].
  destruct K9 as [P9 G9]. destruct K8 as [P8 G8]. destruct K7 as [P7 G7].
  split.
  - rewrite P12, P11, Hsp, P9, P8, P7. exact Hsa.
  - apply G12, G11, Hgr, G9, G8, Hin7.
Qed.

(** A night on the example table in which the mafia vote, the detective's
    shot and the maniac's target all name player 3, whom the doctor heals. *)
Definition night_all_on_3 : Moderator :=
  set_doctor_heal 2 3
    (set_maniac_target 1 3
       (set_detective_shot 2 3
          (mafia_vote_target 0 3 (clear_day_votes mod4)))).

Example night_all_on_3_journal :
  fst (fst (resolve_night true night_all_on_3)) = []
  ∧ round_log_ (snd (fst (resolve_night true night_all_on_3)))
    = [JHeader 1 [0; 1; 2; 3]; JMafiaVote 0 3; JDetectiveShot 3; JManiacTarget 3;
       JDoctorHeal 3; JMafiaTally [(3, 1)]; JMarkedBy ByMafia 3;
       JMarkedBy ByDetective 3; JMarkedBy ByManiac 3; JHealCancels 3].
Proof. split; reflexivity. Qed.

Lemma resolve_night_heal_protects_witness :
  (3 ∉ fst (fst (resolve_night true night_all_on_3)))
  ∧ slot_alive (players (snd (fst (resolve_night true night_all_on_3)))) 3 = true
  ∧ JHealCancels 3 ∈ round_log_ (snd (fst (resolve_night true night_all_on_3))).
Proof. apply (resolve_night_heal_protects true night_all_on_3 3); reflexivity. Defined.

(** ** Intent submission and self-targets *)

(** A table with every role: Mafia, Maniac, Doctor, Detective, Citizen,
    Executioner, Journalist, Eavesdropper; and the moderator at the start
    of its first day. *)
Definition table8 : list (option IPlayer) :=
  [ai 0 Role.Mafia; ai 1 Role.Maniac; ai 2 Role.Doctor; ai 3 Role.Detective;
   ai 4 Role.Citizen; ai 5 Role.Executioner; ai 6 Role.Journalist;
   ai 7 Role.Eavesdropper].

Definition day1 : Moderator := clear_day_votes (new_moderator TieNone table8 rng0).

Lemma is_alive_spec m id :
  is_alive m id = true ↔
  id < length (players m) ∧ present (players m) id = true
  ∧ slot_alive (players m) id = true.
Proof. unfold is_alive. rewrite !andb_true_iff, Nat.ltb_lt. tauto. Qed.

Lemma is_mafia_alive m id : is_mafia m id = true → is_alive m id = true.
Proof. unfold is_mafia, is_alive. rewrite !andb_true_iff. tauto. Qed.

Lemma is_maniac_alive m id : is_maniac m id = true → is_alive m id = true.
Proof. unfold is_maniac, is_alive. rewrite !andb_true_iff. tauto. Qed.

Lemma at0_incr i l : i < length l → at0 (incr i l) i = S (at0 l i).
Proof.
  intros Hi. unfold at0, incr.
  destruct (lookup_lt_is_Some_2 l i Hi) as [x Hx].
  by rewrite list_lookup_alter_eq, Hx.
Qed.

(** Case analysis on every test of a conditional in the goal. *)
Ltac branches :=
  cbv zeta;
  repeat match goal with
         | |- context [if ?c then _ else _] => destruct c eqn:?
         end.

(** The guards shared by the submissions all pass for a living submitter
    naming itself. *)
Ltac self_guards Halive :=
  apply is_alive_spec in Halive as (Hlt & Hpr & Hsa);
  let Hle := fresh "Hle" in
  assert (Hle : (length (players _) <=? _) = false) by (apply Nat.leb_gt; exact Hlt);
  rewrite ?Hle, ?Hpr, ?Hsa; simpl.

(** The counterexample to the rule "a submission naming the submitter is
    dropped": on the first day of the example table a vote for oneself, a
    mafia vote for oneself, a detective's shot at oneself and a maniac's
    attack on oneself all change the intent buffers. *)
Lemma self_target_not_dropped :
  day_votes_ (submit_day_vote 4 4 day1) !! 4 = Some (Some 4)
  ∧ day_votes_ day1 !! 4 = Some None
  ∧ mafia_vote_counts_ (mafia_vote_target 0 0 day1) = [1; 0; 0; 0; 0; 0; 0; 0]
  ∧ mafia_vote_counts_ day1 = [0; 0; 0; 0; 0; 0; 0; 0]
  ∧ detective_shot_ (set_detective_shot 3 3 day1) = Some 3
  ∧ detective_shot_ day1 = None
  ∧ maniac_target_ (set_maniac_target 1 1 day1) = Some 1
  ∧ maniac_target_ day1 = None.
Proof. repeat (split; [reflexivity|]). reflexivity. Qed.

(** C4, as the code has it.  Only the Journalist's and the Eavesdropper's
    submissions are dropped for naming the submitter (the Journalist's also
    when its two targets are the same player); the moderator is then left
    as it was.  The day vote, the detective's shot and the doctor's heal of
    any living player naming itself, the mafia vote of a living Mafia
    member naming itself and the attack of the living Maniac naming itself
    are recorded. *)
Theorem self_target_handling (m : Moderator) :
  (∀ j a b, j = a ∨ j = b ∨ a = b → set_journalist_compare j a b m = m)
  ∧ (∀ e, set_eavesdropper_target e e m = m)
  ∧ (∀ v, is_alive m v = true →
          day_votes_ (submit_day_vote v v m) !! v = Some (Some v)
          ∧ detective_shot_ (set_detective_shot v v m) = Some v
          ∧ doctor_heal_ (set_doctor_heal v v m) = Some v)
  ∧ (∀ v, is_mafia m v = true →
          0 < at0 (mafia_vote_counts_ (mafia_vote_target v v m)) v
          ∧ JMafiaVote v v ∈ round_log_ (mafia_vote_target v v m))
  ∧ (∀ v, is_maniac m v = true →
          maniac_target_ (set_maniac_target v v m) = Some v).
Proof.
  split; [|split; [|split; [|split]]].
  - intros j a b H. unfold set_journalist_compare.
    destruct (a =? b) eqn:Eab; [by branches|].
    destruct (j =? a) eqn:Eja; [by branches|].
    destruct (j =? b) eqn:Ejb; [by branches|].
    apply Nat.eqb_neq in Eab, Eja, Ejb. destruct H as [?|[?|?]]; congruence.
  - intros e. unfold set_eavesdropper_target. rewrite Nat.eqb_refl.
    by branches.
  - intros v Halive. split; [|split].
    + unfold submit_day_vote. self_guards Halive.
      apply list_lookup_insert_eq.
      repeat case_match; simpl; try done.
      all: try (unfold resize; rewrite length_app, length_take, length_replicate; lia).
      all: match goal with
           | H : negb (_ =? _) = false |- _ =>
               apply negb_false_iff, Nat.eqb_eq in H; by rewrite H
           end.
    + unfold set_detective_shot. self_guards Halive. by case_match.
    + unfold set_doctor_heal. self_guards Halive. by case_match.
  - intros v Hmaf. pose proof (is_mafia_alive _ _ Hmaf) as Halive.
    unfold mafia_vote_target. rewrite Hmaf. self_guards Halive.
    split; [|apply round_append_logged].
    assert (Hpos : ∀ l, v < length l → 0 < at0 (incr v l) v).
    { intros l Hl. rewrite at0_incr by done. lia. }
    repeat case_match; simpl; apply Hpos.
    all: try (rewrite length_replicate; done).
    all: match goal with
         | H : negb (_ =? _) = false |- _ =>
             apply negb_false_iff, Nat.eqb_eq in H; by rewrite H
         end.
  - intros v Hman. pose proof (is_maniac_alive _ _ Hman) as Halive.
    unfold set_maniac_target. rewrite Hman. self_guards Halive. by case_match.
Qed.

(** On the first day of the example table: the Journalist naming itself and
    the Eavesdropper naming itself are dropped, the Doctor healing itself
    and the Maniac attacking itself are recorded. *)
Lemma self_target_handling_witness :
  set_journalist_compare 6 6 4 day1 = day1
  ∧ set_eavesdropper_target 7 7 day1 = day1
  ∧ doctor_heal_ (set_doctor_heal 2 2 day1) = Some 2
  ∧ maniac_target_ (set_maniac_target 1 1 day1) = Some 1.
Proof.
  destruct (self_target_handling day1) as (Hj & He & Hv & _ & Hm).
  split; [|split; [|split]].
  - apply Hj. by left.
  - apply He.
  - apply (Hv 2). reflexivity.
  - apply (Hm 1). reflexivity.
Defined.

(** ** Day resolution: a tie under the policy "none" *)

(** Slot [i] holds a living Executioner object, the kind of player
    [resolve_tie_via_executioner_] puts the question to. *)
Definition asked (ps : list (option IPlayer)) (i : PlayerId) : Prop :=
  ∃ p, get ps i = Some p ∧ p_alive p = true
       ∧ p_role p = Role.Executioner ∧ p_class p = AiClass.

(** The answer of slot [j] does not settle the tie: it abstains, or names a
    player who is not a leader. *)
Definition unsettled (ask : PlayerId → list PlayerId → option PlayerId)
    (leaders : list PlayerId) (j : PlayerId) : Prop :=
  ask j leaders = None ∨ ∃ w, ask j leaders = Some w ∧ w ∉ leaders.

(** The leaders of the final vote and their number of votes, as
    [resolve_day_lynch] computes them. *)
Definition day_tally_of (m : Moderator) : list nat :=
  day_tally (players m)
    (if negb (length (day_votes_ m) =? length (players m))
     then resize (length (players m)) None (day_votes_ m) else day_votes_ m).

Definition day_leaders (m : Moderator) : list PlayerId :=
  leaders_of (length (players m)) (day_tally_of m) (max_of (day_tally_of m)).

Lemma tie_loop_first_valid ask leaders k : ∀ s m,
  keeps m (tie_loop ask leaders (seq s k) m).2
  ∧ match (tie_loop ask leaders (seq s k) m).1 with
    | Some v =>
        v ∈ leaders
        ∧ ∃ i, s ≤ i < s + k ∧ asked (players m) i ∧ ask i leaders = Some v
               ∧ ∀ j, s ≤ j < i → asked (players m) j → unsettled ask leaders j
    | None =>
        ∀ j, s ≤ j < s + k → asked (players m) j → unsettled ask leaders j
    end.
Proof.
  induction k as [|k IH]; intros s m; simpl.
  - split; [apply keeps_refl|]. intros j Hj. lia.
  - assert (Hskip : ¬ asked (players m) s →
      keeps m (tie_loop ask leaders (seq (S s) k) m).2
      ∧ match (tie_loop ask leaders (seq (S s) k) m).1 with
        | Some v =>
            v ∈ leaders
            ∧ ∃ i, s ≤ i < s + S k ∧ asked (players m) i ∧ ask i leaders = Some v
                   ∧ ∀ j, s ≤ j < i → asked (players m) j → unsettled ask leaders j
        | None =>
            ∀ j, s ≤ j < s + S k → asked (players m) j → unsettled ask leaders j
        end).
    { intros Hno. destruct (IH (S s) m) as [K H]. split; [exact K|].
      destruct (tie_loop ask leaders (seq (S s) k) m).1 as [v|].
      - destruct H as (Hv & i & Hi & Ha & Hd & Hpre). split; [done|].
        exists i. repeat split; try done; try lia.
        intros j Hj Haj. destruct (decide (j = s)) as [->|Hne]; [done|].
        apply Hpre; [lia | done].
      - intros j Hj Haj. destruct (decide (j = s)) as [->|Hne]; [done|].
        apply H; [lia | done]. }
    destruct (get (players m) s) as [p|] eqn:Hget;
      [|apply Hskip; intros (q & Hq & _); congruence].
    destruct (p_alive p) eqn:Hal; simpl;
      [|apply Hskip; intros (q & Hq & ? & _); congruence].
    destruct (decide (p_role p = Role.Executioner)) as [Hrole|Hrole];
      [rewrite bool_decide_eq_true_2 by done
      |rewrite bool_decide_eq_false_2 by done; simpl;
       apply Hskip; intros (q & Hq & _ & ? & _); congruence].
    destruct (decide (p_class p = AiClass)) as [Hcls|Hcls];
      [rewrite bool_decide_eq_true_2 by done
      |rewrite bool_decide_eq_false_2 by done; simpl;
       apply Hskip; intros (q & Hq & _ & _ & ?); congruence].
    simpl.
    assert (Hasked : asked (players m) s) by (by exists p).
    assert (Hnext : ∀ line, unsettled ask leaders s →
      keeps m (tie_loop ask leaders (seq (S s) k) (round_append_ line m)).2
      ∧ match (tie_loop ask leaders (seq (S s) k) (round_append_ line m)).1 with
        | Some v =>
            v ∈ leaders
            ∧ ∃ i, s ≤ i < s + S k ∧ asked (players m) i ∧ ask i leaders = Some v
                   ∧ ∀ j, s ≤ j < i → asked (players m) j → unsettled ask leaders j
        | None =>
            ∀ j, s ≤ j < s + S k → asked (players m) j → unsettled ask leaders j
        end).
    { intros line Hun. destruct (IH (S s) (round_append_ line m)) as [K H].
      pose proof (keeps_round_append line m) as K0.
      split; [eapply keeps_trans; [exact K0 | exact K]|].
      destruct K0 as [P0 _]. rewrite P0 in H.
      destruct (tie_loop ask leaders (seq (S s) k) (round_append_ line m)).1 as [v|].
      - destruct H as (Hv & i & Hi & Ha & Hd & Hpre). split; [done|].
        exists i. repeat split; try done; try lia.
        intros j Hj Haj. destruct (decide (j = s)) as [->|Hne]; [done|].
        apply Hpre; [lia | done].
      - intros j Hj Haj. destruct (decide (j = s)) as [->|Hne]; [done|].
        apply H; [lia | done]. }
    destruct (ask s leaders) as [victim|] eqn:Hdec.
    + destruct (decide (victim ∈ leaders)) as [Hin|Hin].
      * rewrite bool_decide_eq_true_2 by done. simpl.
        split; [apply keeps_round_append|]. split; [done|].
        exists s. repeat split; try done; try lia.
      * rewrite bool_decide_eq_false_2 by done.
        apply Hnext. right. by exists victim.
    + apply Hnext. by left.
Qed.

Lemma at0_replicate_0 n t : at0 (replicate n 0) t = 0.
Proof.
  unfold at0. destruct (replicate n 0 !! t) as [x|] eqn:E; [|done].
  apply lookup_replicate in E as [-> _]. done.
Qed.

Lemma at0_incr_ne i j l : i ≠ j → at0 (incr i l) j = at0 l j.
Proof. intros Hne. unfold at0, incr. by rewrite list_lookup_alter_ne. Qed.

Lemma at0_incr_pos i j l : 0 < at0 (incr i l) j → j = i ∨ 0 < at0 l j.
Proof.
  intros H. destruct (decide (i = j)) as [->|Hne]; [by left|].
  right. by rewrite at0_incr_ne in H.
Qed.

(** Only living players in range collect votes. *)
Lemma day_tally_alive ps votes t :
  0 < at0 (day_tally ps votes) t → t < length ps ∧ slot_alive ps t = true.
Proof.
  unfold day_tally.
  assert (Hgen : ∀ vs tally,
    (∀ t, 0 < at0 tally t → t < length ps ∧ slot_alive ps t = true) →
    ∀ t, 0 < at0 (foldl (tally_step ps votes) tally vs) t →
         t < length ps ∧ slot_alive ps t = true).
  { induction vs as [|v vs IH]; intros tally Hinv; simpl; [exact Hinv|].
    apply IH. intros u Hu. unfold tally_step in Hu.
    destruct (negb (present ps v) || negb (slot_alive ps v)); [by apply Hinv|].
    destruct (votes !! v) as [[w|]|]; try by apply Hinv.
    destruct ((length ps <=? w) || negb (present ps w) || negb (slot_alive ps w)) eqn:G;
      [by apply Hinv|].
    apply at0_incr_pos in Hu as [->|Hu]; [|by apply Hinv].
    apply orb_false_iff in G as [G Ga]. apply orb_false_iff in G as [Gl _].
    apply Nat.leb_gt in Gl. apply negb_false_iff in Ga. done. }
  apply Hgen. intros u Hu. rewrite at0_replicate_0 in Hu. lia.
Qed.

Lemma leaders_of_elem n tally mx v :
  v ∈ leaders_of n tally mx ↔ v < n ∧ at0 tally v = mx.
Proof.
  unfold leaders_of. rewrite list_elem_of_filter, elem_of_seq. split.
  - intros [? ?]. split; [lia | done].
  - intros [? ?]. split; [done | lia].
Qed.

Lemma kill_player_kills id m :
  id < length (players m) → slot_alive (players m) id = true →
  slot_alive (players (kill_player id m)) id = false
  ∧ ∀ k, k ≠ id → players (kill_player id m) !! k = players m !! k.
Proof.
  intros Hlt Hal. unfold kill_player.
  assert ((length (players m) <=? id) = false) as -> by by apply Nat.leb_gt.
  unfold slot_alive in *. destruct (get (players m) id) as [p|] eqn:Hget; [|done].
  rewrite Hal. simpl. split.
  - unfold get. by rewrite list_lookup_insert_eq.
  - intros k Hk. by rewrite list_lookup_insert_ne.
Qed.

Lemma asked_in_range ps j : asked ps j → j < length ps.
Proof.
  intros (p & Hp & _). apply get_Some in Hp. by apply lookup_lt_Some in Hp.
Qed.

(** What the code does on a tie under the policy "none": the living
    Executioner objects are asked in the order of their ids; the first
    answer that names a leader is carried out on that leader; without such
    an answer nobody dies. *)
Lemma resolve_day_lynch_tie_none ask m :
  tie_policy m = TieNone →
  0 < max_of (day_tally_of m) →
  1 < length (day_leaders m) →
  match (resolve_day_lynch ask m).1 with
  | Some v =>
      v ∈ day_leaders m
      ∧ (∃ i, asked (players m) i ∧ ask i (day_leaders m) = Some v
              ∧ ∀ j, j < i → asked (players m) j → unsettled ask (day_leaders m) j)
      ∧ slot_alive (players m) v = true
      ∧ slot_alive (players (resolve_day_lynch ask m).2) v = false
      ∧ (∀ k, k ≠ v → players (resolve_day_lynch ask m).2 !! k = players m !! k)
      ∧ JDayExecutionerLynch v ∈ round_log_ (resolve_day_lynch ask m).2
  | None =>
      (∀ j, asked (players m) j → unsettled ask (day_leaders m) j)
      ∧ players (resolve_day_lynch ask m).2 = players m
      ∧ JDayTieNoLynch ∈ round_log_ (resolve_day_lynch ask m).2
  end.
Proof.
  intros Hpol Hmax Htie.
  unfold day_leaders, day_tally_of in *. unfold resolve_day_lynch.
  set (n := length (players m)) in *.
  set (m1 := if negb (length (day_votes_ m) =? n)
             then with_day_votes (resize n None (day_votes_ m)) m else m).
  assert (Hv1 : day_votes_ m1 = if negb (length (day_votes_ m) =? n)
                                then resize n None (day_votes_ m) else day_votes_ m).
  { unfold m1. by case_match. }
  assert (K1 : keeps m m1 ∧ tie_policy m1 = tie_policy m).
  { unfold m1. case_match; by repeat split. }
  destruct K1 as [K1 Hp1]. rewrite Hv1.
  set (tally := day_tally (players m) _) in *.
  set (m2 := with_stats_votes_received_day _ m1).
  assert (K2 : keeps m m2) by (eapply keeps_trans; [exact K1 | by split]).
  assert ((max_of tally <=? 0) = false) as -> by (apply Nat.leb_gt; exact Hmax).
  set (leaders := leaders_of n tally (max_of tally)) in *.
  assert ((1 <? length leaders) = true) as -> by (by apply Nat.ltb_lt).
  assert (tie_policy m2 = TieNone) as -> by (unfold m2; simpl; congruence).
  unfold resolve_tie_via_executioner_.
  destruct K2 as [P2 G2]. rewrite P2. fold n.
  destruct (tie_loop_first_valid ask leaders n 0 m2) as [K3 H3].
  rewrite P2 in H3.
  destruct (tie_loop ask leaders (seq 0 n) m2) as [[v|] m3]; cbn [fst snd] in *.
  - destruct H3 as (Hin & i & Hi & Hask & Hdec & Hpre).
    destruct K3 as [P3 G3].
    assert (Hva : v < n ∧ slot_alive (players m) v = true).
    { apply leaders_of_elem in Hin as [_ Hcnt].
      apply day_tally_alive with (votes := (if negb (length (day_votes_ m) =? n)
        then resize n None (day_votes_ m) else day_votes_ m)).
      fold tally. lia. }
    destruct Hva as [Hvn Hval].
    set (m4 := record_death_round v (round_append_ (JDayExecutionerLynch v) m3)).
    assert (K4 : keeps m3 m4 ∧ JDayExecutionerLynch v ∈ round_log_ m4).
    { split.
      - eapply keeps_trans; [apply keeps_round_append | apply record_death_round_keeps].
      - apply record_death_round_keeps, round_append_logged. }
    destruct K4 as [[P4 G4] L4].
    assert (P : players m4 = players m) by congruence.
    destruct (kill_player_kills v m4) as [Hdead Hothers]; [rewrite P; done..|].
    split; [done|]. split.
    { exists i. repeat split; try done. intros j Hj. apply Hpre. lia. }
    split; [done|]. split; [done|]. split.
    + intros k Hk. rewrite Hothers by done. by rewrite P.
    + by rewrite kill_player_log.
  - destruct K3 as [P3 G3]. split.
    + intros j Hj. apply H3; [|done]. apply asked_in_range in Hj. fold n in Hj. lia.
    + split; [exact (eq_trans (proj1 (keeps_round_append _ m3)) (eq_trans P3 P2))|].
      apply round_append_logged.
Qed.

(** The bot never names a player outside the leaders. *)
Lemma bot_answer_is_a_leader alive leaders r v :
  (Executioner.decide_execution alive leaders r).1 = Some v → v ∈ leaders.
Proof.
  unfold Executioner.decide_execution.
  destruct (negb alive || bool_decide (leaders = [])); [discriminate|].
  destruct (uniform_int 0 1 r) as [coin r']. destruct (coin =? 0); [discriminate|].
  unfold choose. destruct leaders as [|a l]; [discriminate|].
  destruct (uniform_int 0 (length (a :: l) - 1) r') as [idx r''].
  cbn [fst]. apply list_elem_of_lookup_2.
Qed.

(** The interactive player, dealt role [r]. *)
Definition you (r : Role.t) : option IPlayer :=
  Some (mkPlayer "You" r (team_of r) true HumanClass).

(** The example table with the interactive player as the Executioner. *)
Definition table8_you_executioner : list (option IPlayer) :=
  <[5 := you Role.Executioner]> table8.

(** A first day on which players 0 and 1 end with two votes each. *)
Definition tied_day (ps : list (option IPlayer)) : Moderator :=
  submit_day_vote 6 1
    (submit_day_vote 4 1
       (submit_day_vote 3 0
          (submit_day_vote 2 0
             (clear_day_votes (new_moderator TieNone ps rng0))))).

Example tied_day_leaders :
  day_leaders (tied_day table8) = [0; 1]
  ∧ day_leaders (tied_day table8_you_executioner) = [0; 1]
  ∧ max_of (day_tally_of (tied_day table8_you_executioner)) = 2.
Proof. vm_compute. repeat split. Qed.

(** With the program as Executioner the answer "player 0" is carried out. *)
Example bot_executioner_is_asked :
  let r := resolve_day_lynch (λ _ _, Some 0) (tied_day table8) in
  r.1 = Some 0
  ∧ slot_alive (players r.2) 0 = false
  ∧ round_log_ r.2
    = [JHeader 1 [0; 1; 2; 3; 4; 5; 6; 7]; JDayVote 2 0; JDayVote 3 0;
       JDayVote 4 1; JDayVote 6 1; JExecChooses 0; JDayExecutionerLynch 0].
Proof. vm_compute. repeat split. Qed.

(** C2, the failing input.  The interactive player holds the role of
    Executioner and is alive; players 0 and 1 tie with two votes each under
    the tie policy "none".  Whatever the interactive player would answer,
    [resolve_tie_via_executioner_] never puts the question: the
    [dynamic_cast] to [roles::Executioner] yields null for a [roles::Human],
    the slot is passed over without a journal line, the day ends with
    "tie -> no lynch" and nobody is killed. *)
Theorem human_executioner_is_not_asked
    (ask : PlayerId → list PlayerId → option PlayerId) :
  let m := tied_day table8_you_executioner in
  (resolve_day_lynch ask m).1 = None
  ∧ players (resolve_day_lynch ask m).2 = players m
  ∧ round_log_ (resolve_day_lynch ask m).2
    = [JHeader 1 [0; 1; 2; 3; 4; 5; 6; 7]; JDayVote 2 0; JDayVote 3 0;
       JDayVote 4 1; JDayVote 6 1; JDayTieNoLynch].
Proof. vm_compute. repeat split. Qed.

(** ** The round file *)

(** [m'] is in the same round as [m], with the same "written" flag. *)
Definition same_round (m m' : Moderator) : Prop :=
  round_index_ m' = round_index_ m ∧ round_written_ m' = round_written_ m.

Lemma same_round_refl m : same_round m m.
Proof. by split. Qed.

Lemma same_round_trans m1 m2 m3 : same_round m1 m2 → same_round m2 m3 → same_round m1 m3.
Proof. intros [? ?] [? ?]. split; congruence. Qed.

Lemma same_round_foldl {A} (f : Moderator → A → Moderator) (xs : list A) m :
  (∀ m x, same_round m (f m x)) → same_round m (foldl f m xs).
Proof.
  intros Hf. revert m. induction xs as [|x xs IH]; intros m; simpl.
  - apply same_round_refl.
  - eapply same_round_trans; [apply Hf | apply IH].
Qed.

(** Operations built from field updates and tests only. *)
Ltac same_round_by_cases :=
  cbv zeta; repeat case_match; (split; reflexivity).

Lemma same_round_round_append line m : same_round m (round_append_ line m).
Proof. by split. Qed.

Lemma same_round_submit_day_vote v t m : same_round m (submit_day_vote v t m).
Proof. unfold submit_day_vote. same_round_by_cases. Qed.

Lemma same_round_mafia_vote_target i t m : same_round m (mafia_vote_target i t m).
Proof. unfold mafia_vote_target. same_round_by_cases. Qed.

Lemma same_round_set_detective_shot i t m : same_round m (set_detective_shot i t m).
Proof. unfold set_detective_shot. same_round_by_cases. Qed.

Lemma same_round_set_doctor_heal i t m : same_round m (set_doctor_heal i t m).
Proof. unfold set_doctor_heal. same_round_by_cases. Qed.

Lemma same_round_set_maniac_target i t m : same_round m (set_maniac_target i t m).
Proof. unfold set_maniac_target. same_round_by_cases. Qed.

Lemma same_round_set_journalist_compare j a b m :
  same_round m (set_journalist_compare j a b m).
Proof. unfold set_journalist_compare. same_round_by_cases. Qed.

Lemma same_round_set_eavesdropper_target e t m :
  same_round m (set_eavesdropper_target e t m).
Proof. unfold set_eavesdropper_target. same_round_by_cases. Qed.

Lemma same_round_kill_player id m : same_round m (kill_player id m).
Proof. unfold kill_player. same_round_by_cases. Qed.

Lemma same_round_record_death_round id m : same_round m (record_death_round id m).
Proof. unfold record_death_round. same_round_by_cases. Qed.

Lemma same_round_death_step m id : same_round m (death_step m id).
Proof.
  unfold death_step.
  eapply same_round_trans; [apply same_round_record_death_round|].
  eapply same_round_trans; [apply same_round_round_append|].
  apply same_round_kill_player.
Qed.

Lemma same_round_journalist_step m q : same_round m (journalist_step m q).
Proof. unfold journalist_step. same_round_by_cases. Qed.

Lemma same_round_eavesdrop_step counts shot heal maniac m req :
  same_round m (eavesdrop_step counts shot heal maniac m req).
Proof. unfold eavesdrop_step. destruct req. same_round_by_cases. Qed.

Lemma same_round_mark_shot tid src tk m : same_round m (mark_shot tid src (tk, m)).2.
Proof. unfold mark_shot. destruct tid; simpl; [case_match|]; by split. Qed.

Lemma same_round_tie_loop ask leaders ids : ∀ m,
  same_round m (tie_loop ask leaders ids m).2.
Proof.
  induction ids as [|i ids IH]; intros m; simpl; [apply same_round_refl|].
  repeat case_match; simpl; try apply IH; try (by split).
  all: eapply same_round_trans; [apply same_round_round_append | apply IH].
Qed.

Lemma same_round_resolve_day_lynch ask m : same_round m (resolve_day_lynch ask m).2.
Proof.
  unfold resolve_day_lynch, resolve_tie_via_executioner_. cbv zeta.
  set (m1 := if negb _ then _ else m).
  assert (K1 : same_round m m1) by (unfold m1; case_match; by split).
  set (m2 := with_stats_votes_received_day _ m1).
  assert (K2 : same_round m m2) by (eapply same_round_trans; [exact K1 | by split]).
  case_match; [simpl; eapply same_round_trans; [exact K2 | by split]|].
  assert (Hkill : ∀ v line m', same_round m m' →
    same_round m (kill_player v (record_death_round v (round_append_ line m')))).
  { intros v line m' K. eapply same_round_trans; [exact K|].
    eapply same_round_trans; [apply same_round_round_append|].
    eapply same_round_trans; [apply same_round_record_death_round|].
    apply same_round_kill_player. }
  case_match.
  - destruct (tie_policy m2).
    + pose proof (same_round_tie_loop ask
        (leaders_of (length (players m)) (day_tally (players m) (day_votes_ m1))
           (max_of (day_tally (players m) (day_votes_ m1))))
        (seq 0 (length (players m2))) m2) as K3.
      destruct (tie_loop _ _ _ m2) as [[v|] m3]; simpl in K3 |- *.
      * apply Hkill. eapply same_round_trans; [exact K2 | exact K3].
      * eapply same_round_trans; [exact K2|].
        eapply same_round_trans; [exact K3 | by split].
    + destruct (choose _ (rng_ m2)) as [[v|] r]; simpl.
      * apply Hkill. eapply same_round_trans; [exact K2 | by split].
      * eapply same_round_trans; [exact K2 | by split].
  - case_match; simpl; [exact K2|]. by apply Hkill.
Qed.

(** What an attempt to write the file of the current round leaves behind. *)
Definition attempt (night_completed open_ok : bool) (m : Moderator) : list (nat * option bool) :=
  if round_written_ m then []
  else [(round_index_ m, if open_ok then Some night_completed else None)].

Lemma round_write_file_attempt nc ok m :
  round_index_ (round_write_file_ nc ok m).1 = round_index_ m
  ∧ round_written_ (round_write_file_ nc ok m).1 = true
  ∧ map summary (round_write_file_ nc ok m).2 = attempt nc ok m.
Proof.
  unfold round_write_file_, attempt.
  destruct (round_written_ m) eqn:E; [done|]. by destruct ok.
Qed.

Lemma resolve_night_attempt ok m :
  round_index_ (resolve_night ok m).1.2 = round_index_ m
  ∧ round_written_ (resolve_night ok m).1.2 = true
  ∧ map summary (resolve_night ok m).2 = attempt true ok m.
Proof.
  unfold resolve_night. cbv zeta.
  set (m1 := if negb _ then _ else m).
  assert (K1 : same_round m m1) by (unfold m1; case_match; by split).
  set (m2 := round_append_ _ m1).
  assert (K2 : same_round m m2) by (eapply same_round_trans; [exact K1 | by split]).
  set (sel := if 0 <? max_of (mafia_vote_counts_ m1) then _ else _).
  assert (K3 : same_round m sel.2).
  { unfold sel. case_match; [|exact K2]. case_match; [exact K2|].
    case_match. simpl. eapply same_round_trans; [exact K2 | by split]. }
  destruct sel as [mafia_target m3]. cbn [snd] in K3.
  pose proof (same_round_mark_shot mafia_target ByMafia
                (replicate (length (players m)) false) m3) as Ka.
  destruct (mark_shot mafia_target ByMafia _) as [tk1 m4].
  pose proof (same_round_mark_shot (detective_shot_ m1) ByDetective tk1 m4) as Kb.
  destruct (mark_shot (detective_shot_ m1) ByDetective _) as [tk2 m5].
  pose proof (same_round_mark_shot (maniac_target_ m1) ByManiac tk2 m5) as Kc.
  destruct (mark_shot (maniac_target_ m1) ByManiac _) as [tk3 m6].
  cbn [snd] in Ka, Kb, Kc.
  assert (K6 : same_round m m6) by eauto using same_round_trans.
  set (healed := match doctor_heal_ m1 with Some h => _ | None => _ end).
  assert (K7 : same_round m healed.2).
  { unfold healed. destruct (doctor_heal_ m1); [case_match|]; simpl; exact K6. }
  destruct healed as [tk4 m7]. cbn [snd] in K7.
  set (m8 := foldl journalist_step m7 _).
  assert (K8 : same_round m7 m8) by (apply same_round_foldl, same_round_journalist_step).
  set (m9 := foldl (eavesdrop_step _ _ _ _) m8 _).
  assert (K9 : same_round m8 m9).
  { apply same_round_foldl. intros. apply same_round_eavesdrop_step. }
  set (m10 := foldl death_step m9 _).
  assert (K10 : same_round m9 m10) by (apply same_round_foldl, same_round_death_step).
  assert (K11 : same_round m (clear_night_intents_ m10)).
  { eapply same_round_trans; [exact K7|]. eapply same_round_trans; [exact K8|].
    eapply same_round_trans; [exact K9|]. eapply same_round_trans; [exact K10|]. by split. }
  destruct (round_write_file_attempt true ok (clear_night_intents_ m10)) as (Hi & Hw & He).
  destruct (round_write_file_ true ok (clear_night_intents_ m10)) as [m12 ev].
  cbn [fst snd] in *. destruct K11 as [Hidx Hwr].
  split; [congruence|]. split; [done|].
  rewrite He. unfold attempt. by rewrite Hidx, Hwr.
Qed.

Lemma finalize_attempt ok m :
  round_index_ (finalize_round_file_if_pending ok m).1 = round_index_ m
  ∧ (0 < round_index_ m → round_written_ (finalize_round_file_if_pending ok m).1 = true)
  ∧ map summary (finalize_round_file_if_pending ok m).2
    = if 0 <? round_index_ m then attempt false ok m else [].
Proof.
  unfold finalize_round_file_if_pending.
  destruct (round_write_file_attempt false ok m) as (Hi & Hw & He).
  destruct (Nat.ltb_spec 0 (round_index_ m)) as [Hpos|Hpos]; simpl.
  - destruct (round_written_ m) eqn:E; simpl.
    + repeat split; try done. unfold attempt. by rewrite E.
    + repeat split; done.
  - repeat split; try done. lia.
Qed.

Lemma clear_day_votes_round m :
  round_index_ (clear_day_votes m) = S (round_index_ m)
  ∧ round_written_ (clear_day_votes m) = false.
Proof. unfold clear_day_votes. cbv zeta. by case_match. Qed.

Lemma run_app cs1 cs2 m :
  run (cs1 ++ cs2) m
  = ((run cs2 (run cs1 m).1).1, (run cs1 m).2 ++ (run cs2 (run cs1 m).1).2).
Proof.
  revert m. induction cs1 as [|c cs1 IH]; intros m; simpl.
  - by destruct (run cs2 m).
  - destruct (exec c m) as [m1 e1]. rewrite IH.
    destruct (run cs1 m1) as [m2 e2]. simpl.
    destruct (run cs2 m2) as [m3 e3]. simpl. by rewrite <- app_assoc.
Qed.

Lemma exec_intent c m :
  is_intent c = true → same_round m (exec c m).1 ∧ (exec c m).2 = [].
Proof.
  destruct c; simpl; try discriminate; intros _; (split; [|done]).
  - apply same_round_submit_day_vote.
  - apply same_round_mafia_vote_target.
  - apply same_round_set_detective_shot.
  - apply same_round_set_doctor_heal.
  - apply same_round_set_maniac_target.
  - apply same_round_set_journalist_compare.
  - apply same_round_set_eavesdropper_target.
Qed.

Lemma run_intents cs : ∀ m,
  forallb is_intent cs = true → same_round m (run cs m).1 ∧ (run cs m).2 = [].
Proof.
  induction cs as [|c cs IH]; intros m H; simpl.
  - split; [apply same_round_refl | done].
  - apply andb_true_iff in H as [Hc Hcs].
    destruct (exec_intent c m Hc) as [K E].
    destruct (exec c m) as [m1 e1]. simpl in K, E. subst e1.
    destruct (IH m1 Hcs) as [K' E'].
    destruct (run cs m1) as [m2 e2]. simpl in *. subst e2.
    split; [eapply same_round_trans; [exact K | exact K'] | done].
Qed.

Lemma run_round r m :
  well_formed r →
  round_index_ (run (round_calls r) m).1 = S (round_index_ m)
  ∧ round_written_ (run (round_calls r) m).1 = true
  ∧ map summary (run (round_calls r) m).2 = [expected_summary (S (round_index_ m)) r].
Proof.
  intros [Hday Hnight]. unfold round_calls.
  change (CClearDayVotes :: ?l) with ([CClearDayVotes] ++ l).
  rewrite !run_app. cbn [run exec fst snd app].
  destruct (clear_day_votes_round m) as [Hi0 Hw0].
  set (m0 := clear_day_votes m) in *.
  destruct (run_intents (r_day r) m0 Hday) as [[Hi1 Hw1] E1].
  set (m1 := (run (r_day r) m0).1) in *. rewrite E1.
  destruct (same_round_resolve_day_lynch (r_decide r) m1) as [Hi2 Hw2].
  set (m2 := (resolve_day_lynch (r_decide r) m1).2) in *.
  assert (Hidx : round_index_ m2 = S (round_index_ m)) by congruence.
  assert (Hwr : round_written_ m2 = false) by congruence.
  unfold expected_summary.
  destruct (r_night r) as [intents|]; simpl in Hnight.
  - rewrite run_app. cbn [run exec fst snd app].
    destruct (run_intents intents m2 Hnight) as [[Hi3 Hw3] E3].
    set (m3 := (run intents m2).1) in *. rewrite E3.
    destruct (resolve_night_attempt (r_open_ok r) m3) as (Hi4 & Hw4 & He4).
    destruct (resolve_night (r_open_ok r) m3) as [[deaths m4] ev].
    cbn [fst snd] in *. rewrite ?app_nil_r. cbn [app].
    split; [congruence|]. split; [done|].
    rewrite He4. unfold attempt.
    rewrite Hw3, Hwr, Hi3, Hidx. reflexivity.
  - cbn [run exec fst snd app].
    destruct (finalize_attempt (r_open_ok r) m2) as (Hi4 & Hw4 & He4).
    destruct (finalize_round_file_if_pending (r_open_ok r) m2) as [m4 ev].
    cbn [fst snd] in *. rewrite ?app_nil_r. cbn [app].
    split; [congruence|]. split; [apply Hw4; lia|].
    rewrite He4. unfold attempt. rewrite Hwr, Hidx. reflexivity.
Qed.

Lemma run_rounds rounds : ∀ m,
  Forall well_formed rounds →
  round_index_ (run (concat (map round_calls rounds)) m).1
  = round_index_ m + length rounds
  ∧ (rounds ≠ [] → round_written_ (run (concat (map round_calls rounds)) m).1 = true)
  ∧ map summary (run (concat (map round_calls rounds)) m).2
    = imap (λ i r, expected_summary (round_index_ m + S i) r) rounds.
Proof.
  induction rounds as [|r rounds IH]; intros m Hwf.
  - simpl. repeat split; [lia | done].
  - apply Forall_cons in Hwf as [Hr Hrs].
    cbn [map concat length]. rewrite run_app. cbn [fst snd].
    destruct (run_round r m Hr) as (Hi & Hw & He).
    destruct (IH (run (round_calls r) m).1 Hrs) as (Hi' & Hw' & He').
    split; [rewrite Hi', Hi; lia|]. split.
    + intros _. destruct rounds as [|r' rounds']; [exact Hw | by apply Hw'].
    + rewrite map_app, He, He'. rewrite imap_cons. cbn [app]. f_equal; [f_equal; lia|].
      apply imap_ext. intros i x _. unfold compose. rewrite Hi. f_equal. lia.
Qed.

Lemma run_finalize_settled opens : ∀ m,
  round_written_ m = true ∨ round_index_ m = 0 →
  run (map CFinalizeRoundFile opens) m = (m, []).
Proof.
  induction opens as [|ok opens IH]; intros m Hm; simpl; [done|].
  assert (finalize_round_file_if_pending ok m = (m, [])) as ->.
  { unfold finalize_round_file_if_pending.
    destruct Hm as [->| ->]; [by rewrite andb_false_r | done]. }
  by rewrite IH.
Qed.

(** A file closed with "no night" can only be the last one written. *)
Definition no_night_only_last (evs : list FileEvent) : Prop :=
  ∀ i e, evs !! i = Some e → (summary e).2 = Some false → S i = length evs.

Lemma check_end_attempt tb m :
  round_index_ (check_end_conditions_ tb m).1.2 = round_index_ m
  ∧ (round_written_ m = true → (check_end_conditions_ tb m).2 = []
                               ∧ round_written_ (check_end_conditions_ tb m).1.2 = true)
  ∧ (round_written_ m = false → 0 < round_index_ m →
       if (check_end_conditions_ tb m).1.1
       then round_written_ (check_end_conditions_ tb m).1.2 = true
            ∧ ∃ e, (check_end_conditions_ tb m).2 = [e]
                   ∧ (summary e).1 = round_index_ m
       else (check_end_conditions_ tb m).2 = []
            ∧ round_written_ (check_end_conditions_ tb m).1.2 = false).
Proof.
  unfold check_end_conditions_.
  destruct (bool_decide (evaluate_winner m ≠ Winner.NoWinner)); [|by repeat split].
  unfold finalize_round_file_if_pending, round_write_file_.
  destruct (Nat.ltb_spec 0 (round_index_ m)) as [Hpos|Hpos];
    destruct (round_written_ m) eqn:Ew; cbn [andb negb fst snd].
  - by repeat split.
  - destruct (t_open tb (round_index_ m)); cbn [negb fst snd];
      (split; [done|]); (split; [intros [=]|]); intros _ _; (split; [done|]); eauto.
  - by repeat split.
  - split; [done|]. split; [intros [=]|]. intros _ ?. lia.
Qed.

Lemma game_loop_files fuel : ∀ tb m,
  only_intents tb →
  round_index_ m ≤ round_index_ (game_loop fuel tb m).1
  ∧ map (fst ∘ summary) (game_loop fuel tb m).2
    = seq (S (round_index_ m)) (round_index_ (game_loop fuel tb m).1 - round_index_ m)
  ∧ (round_index_ m < round_index_ (game_loop fuel tb m).1 ∨ round_written_ m = true →
     round_written_ (game_loop fuel tb m).1 = true)
  ∧ no_night_only_last (game_loop fuel tb m).2.
Proof.
  induction fuel as [|fuel IH]; intros tb m Hint.
  - simpl. rewrite Nat.sub_diag. split; [done|]. split; [done|]. split.
    + intros [?|?]; [lia | done].
    + intros i e Hi. by rewrite lookup_nil in Hi.
  - cbn [game_loop].
    destruct (clear_day_votes_round m) as [Hi0 Hw0].
    set (m0 := clear_day_votes m) in *.
    destruct (run_intents (t_day tb m0) m0 (proj1 (Hint m0))) as [[Hi1 Hw1] E1].
    destruct (run (t_day tb m0) m0) as [m1 ev1]. cbn [fst snd] in *. subst ev1.
    destruct (same_round_resolve_day_lynch (t_ask tb m1) m1) as [Hi2 Hw2].
    set (m2 := (resolve_day_lynch (t_ask tb m1) m1).2) in *.
    assert (Hidx2 : round_index_ m2 = S (round_index_ m)) by congruence.
    assert (Hwr2 : round_written_ m2 = false) by congruence.
    destruct (check_end_attempt tb m2) as (Hci & _ & Hc).
    specialize (Hc Hwr2 ltac:(lia)).
    destruct (check_end_conditions_ tb m2) as [[over m3] ev2]. cbn [fst snd] in *.
    destruct over.
    { destruct Hc as (Hw3 & e & -> & He). cbn [app fst snd].
      rewrite Hci, Hidx2. replace (S (round_index_ m) - round_index_ m) with 1 by lia.
      split; [lia|]. split; [simpl; by rewrite He, Hidx2|]. split; [done|].
      intros [|i] e' Hi _; [done | discriminate Hi]. }
    destruct Hc as [-> Hw3].
    destruct (run_intents (t_night tb m3) m3 (proj2 (Hint m3))) as [[Hi4 Hw4] E4].
    destruct (run (t_night tb m3) m3) as [m4 ev3]. cbn [fst snd] in *. subst ev3.
    destruct (resolve_night_attempt (t_open tb (round_index_ m4)) m4) as (Hi5 & Hw5 & He5).
    destruct (resolve_night (t_open tb (round_index_ m4)) m4) as [[deaths m5] ev4].
    cbn [fst snd] in *.
    assert (Hidx5 : round_index_ m5 = S (round_index_ m)) by congruence.
    assert (Hev4 : ∃ e, ev4 = [e] ∧ (summary e).1 = S (round_index_ m)
                        ∧ (summary e).2 ≠ Some false).
    { unfold attempt in He5. rewrite Hw4, Hw3, Hi4, Hci, Hidx2 in He5.
      destruct ev4 as [|e [|e' ev4]]; try discriminate. injection He5 as He5.
      exists e. split; [done|]. rewrite He5. split; [done|]. simpl. by case_match. }
    destruct Hev4 as (e & -> & He1 & He2).
    destruct (check_end_attempt tb m5) as (Hci6 & Hc6 & _).
    destruct (Hc6 Hw5) as [Hev5 Hw6].
    destruct (check_end_conditions_ tb m5) as [[over m6] ev5]. cbn [fst snd] in *.
    subst ev5. cbn [app].
    destruct over.
    { cbn [fst snd]. rewrite Hci6, Hidx5. replace (S (round_index_ m) - round_index_ m) with 1 by lia.
      split; [lia|]. split; [simpl; by rewrite He1|]. split; [done|].
      intros [|i] e' Hi Hno; [|discriminate Hi].
      injection Hi as <-. contradiction. }
    destruct (IH tb m6 Hint) as (Hle & Hseq & Hw7 & Hlast).
    destruct (game_loop fuel tb m6) as [m7 ev6]. cbn [fst snd] in *.
    rewrite Hci6, Hidx5 in Hle, Hseq.
    split; [lia|]. split.
    { cbn [map]. rewrite Hseq. unfold compose at 1. rewrite He1.
      replace (round_index_ m7 - round_index_ m)
        with (S (round_index_ m7 - S (round_index_ m))) by lia.
      reflexivity. }
    split.
    { intros _. apply Hw7. by right. }
    intros i e' Hi Hno. destruct i as [|i].
    + injection Hi as <-. contradiction.
    + simpl in Hi. specialize (Hlast i e' Hi Hno). simpl. lia.
Qed.

(** C7.  The file of a round is written once.  A call of
    [round_write_file_] for a round already marked written does nothing.
    When the file cannot be opened the round is marked written all the
    same, and every later attempt for it does nothing.  Over a whole match
    driven as the engines drive it, starting from a new moderator, there is
    exactly one attempt per round [R = 1, 2, ...], in this order: made by
    [resolve_night] (closing line "night completed") for a round that had
    its night, and by [finalize_round_file_if_pending] (closing line "no
    night") for a round that ended the match during the day; the file is
    on disk exactly when that attempt could open it, and the calls of
    [finalize_round_file_if_pending] after the last round add nothing.
    The round loop of the engines, for as long as it runs, makes exactly
    these calls: one attempt for each round begun, a "no night" file only
    as the last one, nothing more from the final call in the coroutine
    engine. *)
Theorem round_file_written_once :
  (∀ nc ok m, round_written_ m = true → round_write_file_ nc ok m = (m, []))
  ∧ (∀ nc nc' ok' m, round_written_ m = false →
       (round_write_file_ nc false m).2 = [OpenFailed (round_index_ m)]
       ∧ round_written_ (round_write_file_ nc false m).1 = true
       ∧ round_write_file_ nc' ok' (round_write_file_ nc false m).1
         = ((round_write_file_ nc false m).1, [])
       ∧ finalize_round_file_if_pending ok' (round_write_file_ nc false m).1
         = ((round_write_file_ nc false m).1, []))
  ∧ (∀ rounds final_opens m0,
       round_index_ m0 = 0 → round_written_ m0 = false →
       Forall well_formed rounds →
       map summary (run (match_calls rounds final_opens) m0).2
       = imap (λ k r, expected_summary (S k) r) rounds)
  ∧ (∀ fuel tb m0,
       round_index_ m0 = 0 → round_written_ m0 = false → only_intents tb →
       map (fst ∘ summary) (game_loop fuel tb m0).2
       = seq 1 (round_index_ (game_loop fuel tb m0).1)
       ∧ no_night_only_last (game_loop fuel tb m0).2
       ∧ (game_loop_coro fuel tb m0).2 = (game_loop fuel tb m0).2).
Proof.
  split; [|split; [|split]].
  - intros nc ok m H. unfold round_write_file_. by rewrite H.
  - intros nc nc' ok' m H.
    assert (round_write_file_ nc false m
            = (with_round_written true m, [OpenFailed (round_index_ m)])) as ->.
    { unfold round_write_file_. by rewrite H. }
    cbn [fst snd]. split; [done|]. split; [done|]. split; [done|].
    unfold finalize_round_file_if_pending.
    change (round_written_ (with_round_written true m)) with true.
    by rewrite andb_false_r.
  - intros rounds final_opens m0 Hi Hw Hwf. unfold match_calls.
    rewrite run_app. cbn [fst snd].
    destruct (run_rounds rounds m0 Hwf) as (Hi' & Hw' & He).
    rewrite run_finalize_settled.
    + rewrite app_nil_r, He. apply imap_ext. intros i x _. simpl. by rewrite Hi.
    + destruct rounds as [|r rounds]; [right; simpl in *; lia | left; by apply Hw'].
  - intros fuel tb m0 Hi Hw Hint.
    destruct (game_loop_files fuel tb m0 Hint) as (Hle & Hseq & Hwr & Hlast).
    rewrite Hi, Nat.sub_0_r in Hseq. split; [exact Hseq|]. split; [exact Hlast|].
    unfold game_loop_coro.
    destruct (game_loop fuel tb m0) as [m1 ev]. cbn [fst snd] in *.
    assert (finalize_round_file_if_pending (t_open tb (round_index_ m1)) m1 = (m1, []))
      as ->; [|by rewrite app_nil_r].
    unfold finalize_round_file_if_pending.
    destruct (Nat.ltb_spec 0 (round_index_ m1)) as [Hpos|Hpos]; [|done].
    rewrite Hwr by (left; lia). done.
Qed.

(** Two short matches.  On the table of four the Mafia member is lynched
    on the first day and the Maniac wins in the first night: one file,
    closed after the night.  On a table of a Mafia member and two Town
    players the lynching of the Mafia member ends the match during the
    first day: one file, closed without a night. *)
Definition everyone_votes_0 : Table :=
  mkTable (λ _, [CSubmitDayVote 1 0; CSubmitDayVote 2 0; CSubmitDayVote 3 0])
          (λ _ _ _, None)
          (λ _, [CSetManiacTarget 1 3])
          (λ _, true).

Example match_ending_at_night :
  map summary (game_loop 5 everyone_votes_0 mod4).2 = [(1, Some true)]
  ∧ evaluate_winner (game_loop 5 everyone_votes_0 mod4).1 = Winner.Maniac.
Proof. vm_compute. by split. Qed.

Example match_ending_at_day :
  let m := new_moderator TieNone [ai 0 Role.Mafia; ai 1 Role.Citizen; ai 2 Role.Doctor] rng0 in
  map summary (game_loop_coro 5 everyone_votes_0 m).2 = [(1, Some false)]
  ∧ evaluate_winner (game_loop_coro 5 everyone_votes_0 m).1 = Winner.Town.
Proof. vm_compute. by split. Qed.

(** Three rounds on the example table: a full round; a full round whose
    file cannot be opened; a round in which the day ends the match. *)
Definition three_rounds : list Round :=
  [mkRound [CSubmitDayVote 0 4; CSubmitDayVote 4 0] (λ _ _, None)
           (Some [CMafiaVoteTarget 0 4; CSetDoctorHeal 2 4]) true;
   mkRound [] (λ _ _, None) (Some [CMafiaVoteTarget 0 4]) false;
   mkRound [CSubmitDayVote 2 0; CSubmitDayVote 3 0] (λ _ _, None) None true].

Lemma round_file_written_once_witness :
  map summary
      (run (match_calls three_rounds [true; true]) (new_moderator TieNone table8 rng0)).2
  = [(1, Some true); (2, None); (3, Some false)].
Proof.
  apply (proj1 (proj2 (proj2 round_file_written_once)) three_rounds [true; true]);
    [reflexivity | reflexivity | repeat constructor].
Defined.

(** ** The role census *)

Lemma role_count_imap (h : option nat) (r : Role.t) (bag : list Role.t) :
  Engine.role_count r (imap (Engine.make_player h) bag)
  = length (filter (λ x, x = r) bag).
Proof.
  unfold Engine.role_count.
  assert (Hgen : ∀ (f : nat → Role.t → option IPlayer),
    (∀ i x, p_role <$> f i x = Some x) →
    length (filter (λ slot, p_role <$> slot = Some r) (imap f bag))
    = length (filter (λ x, x = r) bag)).
  { induction bag as [|x bag IH]; intros f Hf; [done|].
    rewrite imap_cons, !filter_cons, Hf.
    destruct (decide (x = r)) as [->|Hne].
    - rewrite decide_True by done. simpl. f_equal. apply IH. intros i y. apply Hf.
    - rewrite decide_False by congruence. apply IH. intros i y. apply Hf. }
  apply Hgen. intros i x. unfold Engine.make_player. by case_match.
Qed.

Lemma count_replicate (r x : Role.t) (n : nat) :
  length (filter (λ y, y = r) (replicate n x)) = if decide (x = r) then n else 0.
Proof.
  induction n as [|n IH]; [by case_match|].
  change (replicate (S n) x) with (x :: replicate n x).
  rewrite filter_cons. destruct (decide (x = r)); simpl; by rewrite IH.
Qed.

Lemma mafia_cnt_bound cfg :
  (n_players cfg < 2 ^ 64)%N → (Engine.mafia_cnt cfg < 2 ^ 64 - 6)%N.
Proof.
  intros Hn. unfold Engine.mafia_cnt.
  assert (n_players cfg / N.max 3 (k_mafia_divisor cfg) ≤ n_players cfg / 3)%N.
  { apply N.div_le_compat_l. lia. }
  assert (n_players cfg / 3 < 2 ^ 64 / 3 + 1)%N.
  { assert (n_players cfg / 3 ≤ (2 ^ 64) / 3)%N by (apply N.Div0.div_le_mono; lia). lia. }
  assert ((2 ^ 64 / 3 + 1 < 2 ^ 64 - 6)%N) by (vm_compute; reflexivity).
  lia.
Qed.

Lemma size_add_small a b : (a + b < 2 ^ 64)%N → Engine.size_add a b = (a + b)%N.
Proof. intros H. unfold Engine.size_add. by apply N.mod_small. Qed.

(** The sum [fixed] does not wrap around. *)
Lemma fixed_exact cfg :
  (n_players cfg < 2 ^ 64)%N →
  Engine.fixed cfg
  = (Engine.mafia_cnt cfg + 3 + Engine.executioner_cnt cfg
     + Engine.journalist_cnt cfg + Engine.eavesdropper_cnt cfg)%N.
Proof.
  intros Hn. pose proof (mafia_cnt_bound cfg Hn) as Hm.
  assert (He : (Engine.executioner_cnt cfg ≤ 1)%N) by apply N.le_min_r.
  assert (Hj : (Engine.journalist_cnt cfg ≤ 1)%N) by apply N.le_min_r.
  assert (Hw : (Engine.eavesdropper_cnt cfg ≤ 1)%N) by apply N.le_min_r.
  unfold Engine.fixed.
  set (M := (2 ^ 64)%N) in *.
  assert (HM : (6 < M)%N) by (vm_compute; reflexivity).
  assert (Hadd : ∀ a b, (a + b < M)%N → Engine.size_add a b = (a + b)%N)
    by (intros a b; apply size_add_small).
  clearbody M.
  rewrite (Hadd (Engine.mafia_cnt cfg) 1%N) by lia.
  rewrite (Hadd (Engine.mafia_cnt cfg + 1)%N 1%N) by lia.
  rewrite (Hadd (Engine.mafia_cnt cfg + 1 + 1)%N 1%N) by lia.
  rewrite (Hadd (Engine.mafia_cnt cfg + 1 + 1 + 1)%N (Engine.executioner_cnt cfg)) by lia.
  rewrite (Hadd _ (Engine.journalist_cnt cfg)) by lia.
  rewrite (Hadd _ (Engine.eavesdropper_cnt cfg)) by lia.
  lia.
Qed.

(** The census a configuration asks for: [mafia] Mafia, one Detective, one
    Doctor, one Maniac, [e] Executioners, [j] Journalists, [w]
    Eavesdroppers, and Citizens up to [n] players; or, when these roles
    alone exceed [n], an exception. *)
Definition census (n mafia e j w : N) (res : Outcome (list (option IPlayer) * Rng)) : Prop :=
  let others := (mafia + 3 + e + j + w)%N in
  match res with
  | Ok (ps, _) =>
      (others ≤ n)%N
      ∧ length ps = N.to_nat n
      ∧ Engine.role_count Role.Mafia ps = N.to_nat mafia
      ∧ Engine.role_count Role.Detective ps = 1
      ∧ Engine.role_count Role.Doctor ps = 1
      ∧ Engine.role_count Role.Maniac ps = 1
      ∧ Engine.role_count Role.Executioner ps = N.to_nat e
      ∧ Engine.role_count Role.Journalist ps = N.to_nat j
      ∧ Engine.role_count Role.Eavesdropper ps = N.to_nat w
      ∧ Engine.role_count Role.Citizen ps = N.to_nat (n - others)
  | Throws _ => (n < others)%N
  end.

Section Census.

Variable shuffle : list Role.t → Rng → list Role.t * Rng.
Hypothesis shuffle_perm : ∀ l r, (shuffle l r).1 ≡ₚ l.

Lemma populate_census who cfg rng :
  (n_players cfg < 2 ^ 64)%N →
  census (n_players cfg)
         (N.max 1 (n_players cfg / N.max 3 (k_mafia_divisor cfg)))
         (N.min (executioner_count cfg) 1)
         (N.min (journalist_count cfg) 1)
         (N.min (eavesdropper_count cfg) 1)
         (Engine.populate shuffle who cfg rng).
Proof using shuffle_perm.
  intros Hn. unfold Engine.populate, Engine.role_bag.
  rewrite (fixed_exact cfg Hn).
  fold (Engine.mafia_cnt cfg) (Engine.executioner_cnt cfg)
       (Engine.journalist_cnt cfg) (Engine.eavesdropper_cnt cfg).
  set (others := (Engine.mafia_cnt cfg + 3 + Engine.executioner_cnt cfg
                  + Engine.journalist_cnt cfg + Engine.eavesdropper_cnt cfg)%N).
  destruct (N.ltb_spec (n_players cfg) others) as [Hlt|Hle]; [exact Hlt|].
  set (bag := replicate _ Role.Mafia ++ _).
  pose proof (shuffle_perm bag rng) as Hperm.
  destruct (shuffle bag rng) as [bag' rng']. cbn [fst] in Hperm.
  set (pick := if human cfg && negb (bool_decide (bag' = [])) then _ else _).
  destruct pick as [human_idx rng''].
  unfold census. fold others.
  assert (Hcount : ∀ r, Engine.role_count r (imap (Engine.make_player human_idx) bag')
                        = length (filter (λ x, x = r) bag)).
  { intros r. rewrite role_count_imap. by rewrite Hperm. }
  assert (Hlen : length bag = N.to_nat (n_players cfg)).
  { unfold bag. rewrite !length_app, !length_replicate. lia. }
  split; [exact Hle|]. split.
  { rewrite length_imap, Hperm. exact Hlen. }
  rewrite !Hcount. unfold bag.
  rewrite !filter_app, !length_app, !count_replicate.
  repeat split; repeat case_decide; try congruence; lia.
Qed.


End Census.

(** A shuffle for the examples: it reverses the bag. *)
Definition reversing : list Role.t → Rng → list Role.t * Rng :=
  λ l r, (reverse l, r).

Lemma reversing_perm l r : (reversing l r).1 ≡ₚ l.
Proof. apply reverse_Permutation. Qed.

Example nine_players :
  (λ res, match res with Ok (ps, _) => Some (omap (fmap p_role) ps) | Throws _ => None end)
    (Engine.setup_players_ reversing default_config rng0)
  = Some [Role.Eavesdropper; Role.Journalist; Role.Executioner; Role.Maniac;
          Role.Doctor; Role.Detective; Role.Mafia; Role.Mafia; Role.Mafia].
Proof. vm_compute. reflexivity. Qed.

Example five_players_throw :
  Engine.setup_players_ reversing (set_n_players 5 default_config) rng0
  = Throws "GameEngine::setup_players_: not enough slots for mandatory + extra roles".
Proof. vm_compute. reflexivity. Qed.


(** ** The doctor's night *)

(** The generator after one draw. *)
Definition advance (r : Rng) : Rng := mkRng (draws r) (S (pos r)).

(** [choose] on a non-empty range: the element at the drawn index, the
    draw reduced modulo the length of the range. *)
Lemma choose_nonempty {A} (l : list A) (r : Rng) :
  l ≠ [] →
  ∃ x, l !! (draws r (pos r) `mod` length l) = Some x
       ∧ choose l r = (Some x, advance r).
Proof.
  intros Hne. destruct l as [|a l]; [done|].
  set (l' := a :: l) in *.
  assert (Hlen : 0 < length l') by (simpl; lia).
  assert (Hidx : draws r (pos r) `mod` length l' < length l')
    by (apply Nat.mod_upper_bound; lia).
  destruct (lookup_lt_is_Some_2 l' _ Hidx) as [x Hx].
  exists x. split; [done|].
  unfold choose, l'. fold l'.
  unfold uniform_int. rewrite decide_False by lia.
  replace (length l' - 1 - 0 + 1) with (length l') by lia.
  cbn [Nat.add]. by rewrite Hx.
Qed.

Lemma alive_ids_NoDup ps : NoDup (alive_ids ps).
Proof. unfold alive_ids. apply NoDup_filter, NoDup_seq. Qed.

Lemma erase_elem x y v : y ∈ Doctor.erase x v ↔ y ∈ v ∧ y ≠ x.
Proof. unfold Doctor.erase. rewrite list_elem_of_filter. tauto. Qed.

(** Taking one id out of two or more distinct ids leaves something. *)
Lemma erase_leaves x v : NoDup v → 1 < length v → Doctor.erase x v ≠ [].
Proof.
  intros Hnd Hlen Hnil.
  destruct v as [|a [|b v]]; simpl in Hlen; try lia.
  apply NoDup_cons in Hnd as [Hab _].
  assert (Ha : a ≠ x → a ∈ Doctor.erase x (a :: b :: v)).
  { intros. apply erase_elem. split; [left | done]. }
  assert (Hb : b ≠ x → b ∈ Doctor.erase x (a :: b :: v)).
  { intros. apply erase_elem. split; [right; left | done]. }
  rewrite Hnil in Ha, Hb.
  destruct (decide (a = x)) as [->|Hax].
  - destruct (decide (b = x)) as [->|Hbx].
    + apply Hab. left.
    + by apply Hb, elem_of_nil in Hbx.
  - by apply Ha, elem_of_nil in Hax.
Qed.

(** The doctor is the only player left alive in the example table of four
    and healed itself the night before. *)
Definition last_doctor : Doctor.t := Doctor.mk 2 (Some 2) rng0.

Definition doctor_alone : Moderator :=
  kill_player 3 (kill_player 1 (kill_player 0 (clear_day_votes mod4))).




(** The later revision of the agent does skip the heal in that situation,
    and says so on the console. *)
Lemma on_night_strict_skips (d : Doctor.t) (m : Moderator) :
  Doctor.candidates_strict (alive_ids (players m)) (Doctor.prev_heal_ d) = [] →
  Doctor.on_night_strict d m
  = (Doctor.mk (Doctor.id_ d) None (Doctor.rng d), m, [Doctor.skip_message]).
Proof. intros H. unfold Doctor.on_night_strict. by rewrite H. Qed.

Example strict_doctor_alone_skips :
  Doctor.on_night_strict last_doctor doctor_alone
  = (Doctor.mk 2 None rng0, doctor_alone, [Doctor.skip_message]).
Proof. apply on_night_strict_skips. by vm_compute. Qed.

(** ** The phase barrier *)

Section Barrier.

Import PhaseBarrier.

Variable done_ : nat → bool.

Lemma arrivals_app hs1 hs2 b :
  arrivals done_ (hs1 ++ hs2) b
  = ((arrivals done_ hs2 (arrivals done_ hs1 b).1).1,
     (arrivals done_ hs1 b).2 ++ (arrivals done_ hs2 (arrivals done_ hs1 b).1).2).
Proof.
  revert b. induction hs1 as [|h hs1 IH]; intros b; simpl.
  - by destruct (arrivals done_ hs2 b).
  - destruct (on_arrive_ done_ h b) as [b1 e1]. rewrite IH.
    destruct (arrivals done_ hs1 b1) as [b2 e2]. simpl.
    destruct (arrivals done_ hs2 b2) as [b3 e3]. simpl. by rewrite <- app_assoc.
Qed.

(** Before the last party arrives, arriving only queues the caller. *)
Lemma arrivals_waiting hs : ∀ b,
  arrived_ b + length hs < expected_ b →
  arrivals done_ hs b
  = (mk (expected_ b) (arrived_ b + length hs) (waiters_ b ++ hs) (on_complete_ b), []).
Proof.
  induction hs as [|h hs IH]; intros b Hlt; simpl in *.
  - rewrite Nat.add_0_r, app_nil_r. by destruct b.
  - unfold on_arrive_. cbn [expected_ arrived_ waiters_ on_complete_].
    destruct (Nat.eqb_spec (S (arrived_ b)) (expected_ b)) as [Heq|Hne]; [lia|].
    rewrite IH by (simpl; lia). simpl.
    rewrite <- app_assoc. do 2 f_equal. lia.
Qed.

Lemma resume_all hs :
  (∀ c, c ∈ hs → done_ c = false) →
  concat (map (resume_one done_) (map Some hs)) = map Resumed hs.
Proof.
  induction hs as [|c hs IH]; intros Hnd; simpl; [done|].
  rewrite (Hnd c) by left. simpl. f_equal. apply IH. intros c' Hc'. apply Hnd. by right.
Qed.

(** What one cycle does to the outside. *)
Definition cycle_trace (cb : nat) (hs : list nat) : list Event :=
  Completed cb 0 (map Some hs) :: map Resumed hs.

Lemma one_cycle (n cb : nat) (hs : list nat) :
  0 < n → length hs = n → (∀ c, c ∈ hs → done_ c = false) →
  arrivals done_ (map Some hs) (new n (Some cb)) = (new n (Some cb), cycle_trace cb hs).
Proof using Type.
  intros Hn Hlen Hnd.
  destruct (decide (hs = [])) as [->|Hne]; [simpl in Hlen; lia|].
  destruct (exists_last Hne) as (front & h & ->).
  rewrite length_app in Hlen. simpl in Hlen.
  rewrite map_app, arrivals_app.
  rewrite (arrivals_waiting (map Some front) (new n (Some cb)))
    by (simpl; rewrite length_map; lia).
  cbn [fst snd map arrivals new expected_ arrived_ waiters_ on_complete_ app].
  unfold on_arrive_. cbn [expected_ arrived_ waiters_ on_complete_].
  rewrite length_map.
  assert ((S (0 + length front) =? n) = true) as -> by (apply Nat.eqb_eq; lia).
  cbn [fst snd]. rewrite app_nil_r. unfold cycle_trace, new.
  rewrite <- (resume_all (front ++ [h]) Hnd), !map_app. done.
Qed.

(** C8.  A barrier for [n] parties with a completion callback, driven
    through any number of cycles of [n] arrivals by suspended coroutines.
    Within a cycle nothing happens outside the barrier before the [n]-th
    arrival.  The [n]-th arrival runs the callback once; the callback finds
    the counter of arrivals back at zero and all [n] parties still queued,
    none resumed.  After it the [n] parties are resumed in the order in
    which they arrived, the last arriver last.  The barrier is then as new,
    and the next cycle goes the same way. *)
Theorem barrier_cycles (n cb : nat) (cycles : list (list nat)) :
  0 < n →
  Forall (λ hs, length hs = n ∧ ∀ c, c ∈ hs → done_ c = false) cycles →
  arrivals done_ (map Some (concat cycles)) (new n (Some cb))
  = (new n (Some cb), concat (map (cycle_trace cb) cycles))
  ∧ ∀ hs k, hs ∈ cycles → k < n →
      (arrivals done_ (map Some (take k hs)) (new n (Some cb))).2 = [].
Proof using Type.
  intros Hn Hcycles. split.
  - induction Hcycles as [|hs cycles [Hlen Hnd] _ IH]; [done|].
    cbn [concat map]. rewrite map_app, arrivals_app.
    rewrite (one_cycle n cb hs Hn Hlen Hnd). cbn [fst snd].
    by rewrite IH.
  - intros hs k Hin Hk.
    rewrite arrivals_waiting; [done|].
    simpl. rewrite length_map, length_take. lia.
Qed.

End Barrier.

(** Two cycles of a barrier for three coroutines, none of them finished. *)
Lemma barrier_cycles_witness :
  PhaseBarrier.arrivals (λ _, false) (map Some (concat [[10; 11; 12]; [12; 10; 11]]))
    (PhaseBarrier.new 3 (Some 7))
  = (PhaseBarrier.new 3 (Some 7),
     concat (map (cycle_trace 7) [[10; 11; 12]; [12; 10; 11]]))
  ∧ ∀ hs k, hs ∈ [[10; 11; 12]; [12; 10; 11]] → k < 3 →
      (PhaseBarrier.arrivals (λ _, false) (map Some (take k hs))
         (PhaseBarrier.new 3 (Some 7))).2 = [].
Proof.
  apply (barrier_cycles (λ _, false) 3 7 [[10; 11; 12]; [12; 10; 11]]); [lia|].
  repeat constructor.
Defined.

(** The barrier as the engine first constructs it, expecting nobody, is
    never completed by an arrival; and without a callback a completed cycle
    only resumes the parties. *)
Example barrier_corner_cases :
  PhaseBarrier.arrivals (λ _, false) [Some 1; Some 2] (PhaseBarrier.new 0 (Some 7))
  = (PhaseBarrier.mk 0 2 [Some 1; Some 2] (Some 7), [])
  ∧ PhaseBarrier.arrivals (λ _, false) [Some 1; Some 2] (PhaseBarrier.new 2 None)
    = (PhaseBarrier.new 2 None, [PhaseBarrier.Resumed 1; PhaseBarrier.Resumed 2]).
Proof. split; reflexivity. Qed.

(** ** Exit codes *)

Section ExitCodes.

Import Main.

Variable strtoul : String.string → N * String.string.
Variable stoul : String.string → option N.
Variable load_config_from_yaml : String.string → GameConfig → option GameConfig.
Variable make_rng : N → Rng.
Variable shuffle : list Role.t → Rng → list Role.t * Rng.
Variable play_threads : GameConfig → list (option IPlayer) → Rng → Outcome unit.
Variable play_coro : GameConfig → list (option IPlayer) → Rng → Outcome unit.

#[local] Abbreviation parse_cli := (Main.parse_cli strtoul).
#[local] Abbreviation main := (Main.main strtoul load_config_from_yaml make_rng shuffle play_threads).
#[local] Abbreviation GameEngine_run := (Main.GameEngine_run make_rng shuffle play_threads).
#[local] Abbreviation load_yaml_or_fail := (Main.load_yaml_or_fail load_config_from_yaml).
#[local] Abbreviation parse_cli_task1 := (Main.parse_cli_task1 stoul).
#[local] Abbreviation effective_config := (Main.effective_config stoul load_config_from_yaml).
#[local] Abbreviation run_engine := (Main.run_engine make_rng shuffle play_threads play_coro).
#[local] Abbreviation main_task1 :=
  (Main.main_task1 stoul load_config_from_yaml make_rng shuffle play_threads play_coro).

(** A [return] out of the option loop of [src/app/main.cpp] is [return 0]
    (help) or [return 1]. *)
Lemma parse_cli_returns args : ∀ cfg e,
  parse_cli args cfg = inl e → e = ExitCode 0 ∨ e = ExitCode 1.
Proof.
  remember (length args) as n eqn:Hn.
  revert args Hn. induction (lt_wf n) as [n _ IH]. intros args Hn cfg e.
  destruct args as [|a rest]; [discriminate|].
  assert (Hrest : ∀ cfg', parse_cli rest cfg' = inl e → e = ExitCode 0 ∨ e = ExitCode 1).
  { intros cfg'. apply (IH (length rest)); [subst n; simpl; lia | done]. }
  assert (Hrest' : ∀ v rest' cfg', rest = v :: rest' →
            parse_cli rest' cfg' = inl e → e = ExitCode 0 ∨ e = ExitCode 1).
  { intros v rest' cfg' ->. apply (IH (length rest')); [subst n; simpl; lia | done]. }
  cbn [Main.parse_cli].
  destruct (streq a "-h" || streq a "--help"); [intros [= <-]; by left|].
  destruct rest as [|v rest'].
  - repeat (case_match; try (apply Hrest)); intros [= <-]; by right.
  - specialize (Hrest' v rest').
    repeat (case_match; try (apply Hrest); try (by eapply Hrest'));
      intros [= <-]; by right.
Qed.

Lemma main_code args :
  main args = ExitCode 0 ∨ main args = ExitCode 1 ∨ main args = ExitCode 2.
Proof.
  unfold Main.main. destruct (parse_cli args default_config) as [e|cfg] eqn:E.
  - apply parse_cli_returns in E as [->| ->]; auto.
  - repeat case_match; auto.
Qed.

(** The option loop of the later [main] leaves by [return 0], [return 1]
    or an exception out of [std::stoul]. *)
Lemma parse_cli_task1_returns args : ∀ cfg e,
  parse_cli_task1 args cfg = inl e → e = ExitCode 0 ∨ e = ExitCode 1 ∨ e = Terminated.
Proof.
  remember (length args) as n eqn:Hn.
  revert args Hn. induction (lt_wf n) as [n _ IH]. intros args Hn cfg e.
  destruct args as [|a rest]; [discriminate|].
  assert (Hrest : ∀ cfg', parse_cli_task1 rest cfg' = inl e →
            e = ExitCode 0 ∨ e = ExitCode 1 ∨ e = Terminated).
  { intros cfg'. apply (IH (length rest)); [subst n; simpl; lia | done]. }
  assert (Hrest' : ∀ v rest' cfg', rest = v :: rest' →
            parse_cli_task1 rest' cfg' = inl e →
            e = ExitCode 0 ∨ e = ExitCode 1 ∨ e = Terminated).
  { intros v rest' cfg' ->. apply (IH (length rest')); [subst n; simpl; lia | done]. }
  cbn [Main.parse_cli_task1].
  destruct rest as [|v rest'].
  - repeat (case_match; try (apply Hrest)); intros [= <-]; auto.
  - specialize (Hrest' v rest').
    repeat (case_match; try (apply Hrest); try (by eapply Hrest'));
      intros [= <-]; auto.
Qed.

Lemma prescan_yaml_returns args : ∀ cfg e,
  prescan_yaml args cfg = inl e → e = ExitCode 1.
Proof.
  induction args as [|a rest IH]; intros cfg e; simpl; [discriminate|].
  repeat case_match; try (apply IH); by intros [= <-].
Qed.

Lemma effective_config_returns args e :
  effective_config args = inl e → e = ExitCode 0 ∨ e = ExitCode 1 ∨ e = Terminated.
Proof.
  unfold Main.effective_config.
  destruct (prescan_yaml args default_config) as [e0|cfg] eqn:E0.
  - intros [= <-]. apply prescan_yaml_returns in E0 as ->. auto.
  - destruct (parse_cli_task1 args _) as [e1|cfg1] eqn:E1; [|discriminate].
    intros [= <-]. by apply parse_cli_task1_returns in E1.
Qed.


End ExitCodes.

(** Stand-ins for the examples: a reader of decimal digits for [strtoul]
    and [stoul], no YAML file, a generator that repeats its seed, the
    reversing shuffle, a match that runs to its end and a match during
    which an exception escapes. *)
Fixpoint read_digits (s : String.string) (acc : N) : N * String.string :=
  match s with
  | String.EmptyString => (acc, String.EmptyString)
  | String.String c rest =>
      let n := Ascii.nat_of_ascii c in
      if (48 <=? n) && (n <=? 57)
      then read_digits rest (acc * 10 + N.of_nat (n - 48))%N
      else (acc, s)
  end.

Definition strtoul10 (s : String.string) : N * String.string := read_digits s 0.

Definition stoul10 (s : String.string) : option N :=
  let (v, rest) := read_digits s 0 in
  if String.length rest =? String.length s then None else Some v.

Definition no_yaml : String.string → GameConfig → option GameConfig := λ _ _, None.

Definition seeded (seed : N) : Rng := mkRng (λ _, N.to_nat seed) 0.

Definition play_to_end : GameConfig → list (option IPlayer) → Rng → Outcome unit :=
  λ _ _ _, Ok tt.

Definition play_and_throw : GameConfig → list (option IPlayer) → Rng → Outcome unit :=
  λ _ _ _, Throws "std::bad_alloc".


